(** * RenderImage: the image rendering orchestrator

    A shallow embedding of [src/js/lib/render-image.js] (class
    [RenderImage]) and the proofs of its protocol properties.

    The JavaScript class is embedded by explicit state passing:
    - the JS heap of arrays is a store [arrays] addressed by references,
      so that the instance field [_stack] aliases the caller's array;
    - every call the class issues to a collaborator (renderer classes,
      operations) is appended to a chronological call log [calls];
    - a promise is represented by the way it eventually settles, and the
      [.then] chain of [render] by [then_]. *)

From stdpp Require Import base list strings.
From Stdlib Require Import ZArith Lia.

Local Open Scope nat_scope.

(** ** Values of the collaborators *)

(** The value carried by a JS [Error]: its message. *)
Definition Error := string.

(** Operations are objects; an object is known by its identity. *)
Abbreviation OpId := nat (only parsing).

(** A reference to a JS array in the store. *)
Abbreviation ref := nat (only parsing).

Module Vector2.
(** Modelled from the spec: [math/vector2] is imported by the source
    but is not part of it; the spec describes it as an immutable pair
    of numeric width and height with an equality comparison.  Pixel
    sizes are integers. *)
Record t := mk { x : Z; y : Z }.

(** Modelled from the spec: the equality comparison of two sizes, which
    compares width with width and height with height. *)
Definition equals (a b : t) : bool :=
  (x a =? x b)%Z && (y a =? y b)%Z.
End Vector2.

(** The image handle: an identity and the pixel size read by the
    constructor ([image.width], [image.height]). *)
Record Image := { image_id : nat; width : Z; height : Z }.

(** The two renderer classes imported by the source. *)
Inductive RendererKind := WebGLRenderer | CanvasRenderer.

(** An entry of the operations stack: an operation object, or one of the
    falsy JS values ([undefined], [null], [false], [0], [NaN] and the
    empty string).
    The declared element type is [ImglyKit.Operation]; the falsy values
    are the only other entries the class deals with. *)
Inductive entry :=
| JUndefined
| JNull
| JFalse
| JZero
| JNaN
| JEmptyString
| JOperation (op : OpId).

(** JS truthiness, as tested by [if (!operation) continue]. *)
Definition truthy (v : entry) : bool :=
  match v with
  | JOperation _ => true
  | _ => false
  end.

(** ** Promises *)

(** How a promise eventually settles; [Unsettled] is a promise that stays
    pending forever. *)
Inductive settlement :=
| Fulfilled
| Rejected (e : Error)
| Unsettled.

(** A promise handed out by a collaborator: the logical instant [tick]
    at which it settles, and how.  The instant only orders the promises
    given to one [Promise.all]. *)
Record promise := { tick : nat; settles : settlement }.

(** The completion of a call to a collaborator's method: it throws
    synchronously, or returns (a promise, or a plain value, which behaves
    as a promise already fulfilled). *)
Inductive completion :=
| Throws (e : Error)
| Returns (p : promise).

(** The rejection that [Promise.all] observes first: the earliest one,
    and among simultaneous ones the one of the lowest index. *)
Fixpoint earliest_rejection (ps : list promise) : option (nat * Error) :=
  match ps with
  | [] => None
  | p :: rest =>
      match settles p, earliest_rejection rest with
      | Rejected e, Some (t', e') =>
          if (t' <? tick p)%nat then Some (t', e') else Some (tick p, e)
      | Rejected e, None => Some (tick p, e)
      | _, later => later
      end
  end.

Definition is_fulfilled (p : promise) : bool :=
  match settles p with
  | Fulfilled => true
  | _ => false
  end.

(** [Promise.all(ps)]: rejected with the first rejection observed,
    fulfilled once every promise is, pending otherwise. *)
Definition Promise_all (ps : list promise) : settlement :=
  match earliest_rejection ps with
  | Some (_, e) => Rejected e
  | None => if forallb is_fulfilled ps then Fulfilled else Unsettled
  end.

(** What the promise returned by [p.then(cb)] adopts from the completion
    of [cb]: a throw rejects it, a returned promise is followed. *)
Definition adopt (c : completion) : settlement :=
  match c with
  | Throws e => Rejected e
  | Returns p => settles p
  end.

(** [p.then(cb)] on a state [S]: [cb] runs only when [p] fulfils, and a
    rejection (or a promise that never settles) is passed along. *)
Definition then_ {S : Type} (p : settlement) (cb : S -> S * completion)
    (s : S) : S * settlement :=
  match p with
  | Fulfilled => let '(s', c) := cb s in (s', adopt c)
  | Rejected e => (s, Rejected e)
  | Unsettled => (s, Unsettled)
  end.

(** A plain [return;] inside a [then] callback. *)
Definition return_undefined : completion :=
  Returns {| tick := 0; settles := Fulfilled |}.

(** ** The world outside the instance *)

(** Calls issued to the collaborators, each with its arguments and with
    what the call gave back. *)
Inductive event :=
| CallIsSupported (k : RendererKind) (supported : bool)
| CallNew (k : RendererKind) (dims : Vector2.t)
| CallDrawImage (img : Image)
| CallValidateSettings (op : OpId) (c : completion)
| CallRender (op : OpId) (c : completion)
| CallRenderFinal (c : completion)
| CallGetSize (size : Vector2.t)
| CallResizeTo (size : Vector2.t) (c : completion).

Record World := { arrays : list (list entry); calls : list event }.

Definition log (e : event) (w : World) : World :=
  {| arrays := arrays w; calls := calls w ++ [e] |}.

(** [[]]: a new empty array. *)
Definition alloc_array (w : World) : ref * World :=
  (length (arrays w), {| arrays := arrays w ++ [[]]; calls := calls w |}).

(** [a.push(v)] on the array referenced by [r]. *)
Definition push (r : ref) (v : entry) (w : World) : World :=
  {| arrays := alter (fun a => a ++ [v]) r (arrays w); calls := calls w |}.

(** The caller overwrites the contents of one of its arrays. *)
Definition caller_mutates (r : ref) (items : list entry) (w : World) : World :=
  {| arrays := <[r := items]> (arrays w); calls := calls w |}.

(** The outcome of a synchronous call. *)
Inductive outcome (A : Type) :=
| Threw (e : Error)
| Returned (a : A).
Arguments Threw {A} e.
Arguments Returned {A} a.

Definition TypeError : Error := "TypeError"%string.

(** The message of the error thrown by [_initRenderer]; the spec calls
    this failure NoRendererAvailable. *)
Definition NoRendererAvailable : Error :=
  "Neither Canvas nor WebGL renderer are supported."%string.

(** ** Collaborator interfaces *)

(** The renderer classes: the static [isSupported] probe and the
    constructor of each class, and the instance methods the orchestrator
    calls.  [B] is the state of a renderer instance.  Following the
    spec's error taxonomy, [renderFinal] and [resizeTo] may fail;
    [drawImage] and [getSize] are synchronous. *)
Class Renderer (B : Type) := {
  isSupported : RendererKind -> bool;
  new_renderer : RendererKind -> Vector2.t -> B;
  drawImage : Image -> B -> B;
  renderFinal : B -> B * completion;
  getSize : B -> Vector2.t;
  resizeTo : Vector2.t -> B -> B * completion
}.

Module Operation.
(** An operation: [validateSettings()] and [render(renderer)].  The
    operation acts on the renderer it is handed during the call; the
    promise it returns reports the result. *)
Record t (B : Type) := mk {
  validateSettings : completion;
  render : B -> B * completion
}.
Arguments validateSettings {B} _.
Arguments render {B} _ _.
End Operation.

(** The instance state of [RenderImage], field by field. *)
Record RenderImage (B : Type) := {
  _options_preferredRenderer : option string;
  _webglEnabled : bool;
  _renderer : option (RendererKind * B);
  _image : Image;
  _stack : ref;
  _dimensions : string;
  _initialDimensions : Vector2.t
}.
Arguments _options_preferredRenderer {B} _.
Arguments _webglEnabled {B} _.
Arguments _renderer {B} _.
Arguments _image {B} _.
Arguments _stack {B} _.
Arguments _dimensions {B} _.
Arguments _initialDimensions {B} _.

(** The result of [render()]: a synchronous throw, or the promise it
    returns, given by its settlement. *)
Inductive render_result :=
| SyncThrow (e : Error)
| Async (s : settlement).

Section Orchestrator.
Context {B : Type} `{Renderer B}.

(** The operation objects, by identity. *)
Variable ops : OpId -> Operation.t B.

(** [ImageDimensions.prototype.calculateFinalDimensions], for the
    dimensions string given to the constructor.  The module
    [image-dimensions] is imported but not part of the source; it is a
    parameter of the development. *)
Variable calculateFinalDimensions : string -> Vector2.t -> Vector2.t.

(** *** [constructor] and [_initRenderer] *)

Definition set_renderer (this : RenderImage B) (k : RendererKind) (r : B)
    (webgl : bool) : RenderImage B :=
  {| _options_preferredRenderer := _options_preferredRenderer this;
     _webglEnabled := webgl;
     _renderer := Some (k, r);
     _image := _image this;
     _stack := _stack this;
     _dimensions := _dimensions this;
     _initialDimensions := _initialDimensions this |}.

(** [this._options.preferredRenderer !== "canvas"] *)
Definition not_canvas (preferredRenderer : option string) : bool :=
  match preferredRenderer with
  | Some s => negb (String.eqb s "canvas")
  | None => true
  end.

(** The two branches that pick a renderer class.  The probe of the
    Canvas class is only issued when the first condition fails. *)
Definition select_renderer (this : RenderImage B) (w : World)
    : RenderImage B * World :=
  let w := log (CallIsSupported WebGLRenderer (isSupported WebGLRenderer)) w in
  if isSupported WebGLRenderer && not_canvas (_options_preferredRenderer this)
  then
    let w := log (CallNew WebGLRenderer (_initialDimensions this)) w in
    (set_renderer this WebGLRenderer
       (new_renderer WebGLRenderer (_initialDimensions this)) true, w)
  else
    let w :=
      log (CallIsSupported CanvasRenderer (isSupported CanvasRenderer)) w in
    if isSupported CanvasRenderer then
      let w := log (CallNew CanvasRenderer (_initialDimensions this)) w in
      (set_renderer this CanvasRenderer
         (new_renderer CanvasRenderer (_initialDimensions this)) false, w)
    else (this, w).

Definition _initRenderer (this : RenderImage B) (w : World)
    : outcome (RenderImage B) * World :=
  let '(this, w) := select_renderer this w in
  match _renderer this with
  | None => (Threw NoRendererAvailable, w)
  | Some (k, r) =>
      let w := log (CallDrawImage (_image this)) w in
      (Returned (set_renderer this k (drawImage (_image this) r)
                   (_webglEnabled this)), w)
  end.

Definition constructor (image : Image) (operationsStack : ref)
    (dimensions : string) (preferredRenderer : option string) (w : World)
    : outcome (RenderImage B) * World :=
  let this :=
    {| _options_preferredRenderer := preferredRenderer;
       _webglEnabled := false;
       _renderer := None;
       _image := image;
       _stack := operationsStack;
       _dimensions := dimensions;
       _initialDimensions := Vector2.mk (width image) (height image) |} in
  _initRenderer this w.

(** *** [get sanitizedStack] *)

(** The body of [for (let operation of this._stack)], on the entries of
    the array [this._stack] refers to: the caller's array, which exists
    before the call and is not the array built here. *)
Fixpoint sanitize_loop (items : list entry) (sanitizedStack : ref)
    (w : World) : World :=
  match items with
  | [] => w
  | operation :: rest =>
      if negb (truthy operation) then sanitize_loop rest sanitizedStack w
      else sanitize_loop rest sanitizedStack (push sanitizedStack operation w)
  end.

(** The getter.  A stack of the declared type is an array.  A [_stack]
    that designates no array stands for a value that cannot be iterated
    ([undefined]: the argument was left out), on which [for ... of]
    throws a [TypeError]; iterables other than arrays are not
    modelled. *)
Definition sanitizedStack (this : RenderImage B) (w : World)
    : outcome ref * World :=
  let '(sanitizedStack, w') := alloc_array w in
  match arrays w !! _stack this with
  | None => (Threw TypeError, w')
  | Some items =>
      (Returned sanitizedStack, sanitize_loop items sanitizedStack w')
  end.

(** *** [getRenderer] *)

Definition getRenderer (this : RenderImage B) : option (RendererKind * B) :=
  _renderer this.

(** *** [render] *)

(** The first loop of [render]: [validateSettings()] of each entry, in
    stack order.  A call on an entry that is no operation is a
    [TypeError]; a synchronous throw leaves the loop and [render]. *)
Fixpoint validate_loop (stack : list entry) (validationPromises : list promise)
    (w : World) : World * (Error + list promise) :=
  match stack with
  | [] => (w, inr validationPromises)
  | JOperation op :: rest =>
      let c := Operation.validateSettings (ops op) in
      let w := log (CallValidateSettings op c) w in
      match c with
      | Throws e => (w, inl e)
      | Returns p => validate_loop rest (validationPromises ++ [p]) w
      end
  | _ :: _ => (w, inl TypeError)
  end.

(** The call the loop logs for an operation. *)
Definition validate_call (op : OpId) : event :=
  CallValidateSettings op (Operation.validateSettings (ops op)).

(** The loop of the first [then] callback: [operation.render(renderer)]
    of each entry, in stack order, on the shared renderer. *)
Fixpoint render_loop (stack : list entry) (promises : list promise)
    (r : B) (w : World) : (B * World) * (Error + list promise) :=
  match stack with
  | [] => ((r, w), inr promises)
  | JOperation op :: rest =>
      let '(r, c) := Operation.render (ops op) r in
      let w := log (CallRender op c) w in
      match c with
      | Throws e => ((r, w), inl e)
      | Returns p => render_loop rest (promises ++ [p]) r w
      end
  | _ :: _ => ((r, w), inl TypeError)
  end.

(** First callback: render every operation, return [Promise.all]. *)
Definition render_phase (stack : list entry) (s : B * World)
    : (B * World) * completion :=
  let '(r, w) := s in
  match render_loop stack [] r w with
  | (s', inl e) => (s', Throws e)
  | (s', inr promises) =>
      (s', Returns {| tick := 0; settles := Promise_all promises |})
  end.

(** Second callback: [return this._renderer.renderFinal()]. *)
Definition finalize_phase (s : B * World) : (B * World) * completion :=
  let '(r, w) := s in
  let '(r, c) := renderFinal r in
  let w := log (CallRenderFinal c) w in
  ((r, w), c).

(** Third callback: resize unless the final dimensions equal the size
    the renderer reports. *)
Definition resize_phase (dimensions : string) (s : B * World)
    : (B * World) * completion :=
  let '(r, w) := s in
  let initialSize := getSize r in
  let w := log (CallGetSize initialSize) w in
  let finalDimensions := calculateFinalDimensions dimensions initialSize in
  if Vector2.equals finalDimensions initialSize then
    ((r, w), return_undefined)
  else
    let '(r, c) := resizeTo finalDimensions r in
    let w := log (CallResizeTo finalDimensions c) w in
    ((r, w), c).

(** The promise chain of [render], once the validation promises are
    collected. *)
Definition render_chain (dimensions : string) (stack : list entry)
    (validationPromises : list promise) (s : B * World)
    : (B * World) * settlement :=
  let '(s, p) := then_ (Promise_all validationPromises) (render_phase stack) s in
  let '(s, p) := then_ p finalize_phase s in
  then_ p (resize_phase dimensions) s.

(** The ways the chain can run, phase by phase: the same chain as a
    relation between the renderer and world it starts from and the ones
    it ends with, for case analysis in proofs ([render_chain_runs]). *)
Inductive chain_runs (dimensions : string) (stack : list entry)
    (validationPromises : list promise) (r : B) (w : World)
    : B -> World -> settlement -> Prop :=
| validation_not_fulfilled :
    Promise_all validationPromises <> Fulfilled ->
    chain_runs dimensions stack validationPromises r w
      r w (Promise_all validationPromises)
| render_threw r1 w1 e :
    Promise_all validationPromises = Fulfilled ->
    render_loop stack [] r w = ((r1, w1), inl e) ->
    chain_runs dimensions stack validationPromises r w r1 w1 (Rejected e)
| render_not_fulfilled r1 w1 promises :
    Promise_all validationPromises = Fulfilled ->
    render_loop stack [] r w = ((r1, w1), inr promises) ->
    Promise_all promises <> Fulfilled ->
    chain_runs dimensions stack validationPromises r w
      r1 w1 (Promise_all promises)
| finalize_not_fulfilled r1 w1 promises r2 c :
    Promise_all validationPromises = Fulfilled ->
    render_loop stack [] r w = ((r1, w1), inr promises) ->
    Promise_all promises = Fulfilled ->
    renderFinal r1 = (r2, c) ->
    adopt c <> Fulfilled ->
    chain_runs dimensions stack validationPromises r w
      r2 (log (CallRenderFinal c) w1) (adopt c)
| resize_elided r1 w1 promises r2 c :
    Promise_all validationPromises = Fulfilled ->
    render_loop stack [] r w = ((r1, w1), inr promises) ->
    Promise_all promises = Fulfilled ->
    renderFinal r1 = (r2, c) ->
    adopt c = Fulfilled ->
    Vector2.equals (calculateFinalDimensions dimensions (getSize r2))
      (getSize r2) = true ->
    chain_runs dimensions stack validationPromises r w
      r2 (log (CallGetSize (getSize r2)) (log (CallRenderFinal c) w1))
      Fulfilled
| resized r1 w1 promises r2 c r3 c' :
    Promise_all validationPromises = Fulfilled ->
    render_loop stack [] r w = ((r1, w1), inr promises) ->
    Promise_all promises = Fulfilled ->
    renderFinal r1 = (r2, c) ->
    adopt c = Fulfilled ->
    Vector2.equals (calculateFinalDimensions dimensions (getSize r2))
      (getSize r2) = false ->
    resizeTo (calculateFinalDimensions dimensions (getSize r2)) r2 = (r3, c') ->
    chain_runs dimensions stack validationPromises r w
      r3
      (log (CallResizeTo (calculateFinalDimensions dimensions (getSize r2)) c')
         (log (CallGetSize (getSize r2)) (log (CallRenderFinal c) w1)))
      (adopt c').

(** Whether the chain gets to its second callback, the finalize phase:
    every validation promise, and then every promise of the render
    phase, has fulfilled.  This depends on the operations and on the
    renderer they are handed, not on the world the calls are logged in. *)
Definition reaches_finalize (stack : list entry) (r : B) : bool :=
  let nowhere := {| arrays := []; calls := [] |} in
  match validate_loop stack [] nowhere with
  | (_, inl _) => false
  | (_, inr validationPromises) =>
      match Promise_all validationPromises with
      | Fulfilled =>
          match render_loop stack [] r nowhere with
          | (_, inl _) => false
          | (_, inr promises) =>
              match Promise_all promises with
              | Fulfilled => true
              | _ => false
              end
          end
      | _ => false
      end
  end.

(** [render()] from the point where [stack] is bound: the validation
    loop, then the promise chain.  The renderer of a constructed instance
    is never [null]; on [null] the first dereference of [this._renderer]
    is a [TypeError] inside the chain. *)
Definition render_on (this : RenderImage B) (stack : list entry) (w : World)
    : render_result * RenderImage B * World :=
  match validate_loop stack [] w with
  | (w, inl e) => (SyncThrow e, this, w)
  | (w, inr validationPromises) =>
      match _renderer this with
      | None =>
          (Async (snd (then_ (Promise_all validationPromises)
                         (fun w : World => (w, Throws TypeError)) w)),
           this, w)
      | Some (k, r) =>
          let '((r, w), p) :=
            render_chain (_dimensions this) stack validationPromises (r, w) in
          (Async p, set_renderer this k r (_webglEnabled this), w)
      end
  end.

(** [render()]: [let stack = this.sanitizedStack], then the rest on the
    contents of that private array. *)
Definition render (this : RenderImage B) (w : World)
    : render_result * RenderImage B * World :=
  match sanitizedStack this w with
  | (Threw e, w) => (SyncThrow e, this, w)
  | (Returned stack, w) => render_on this (default [] (arrays w !! stack)) w
  end.

(** *** An instance in the hands of its caller *)

(** What the caller can do with a constructed instance (and with the
    array it handed over), one step after the other; a [render()] is
    followed until it has run its course. *)
Inductive action :=
| ActRender
| ActSanitizedStack
| ActGetRenderer
| ActMutate (r : ref) (items : list entry).

Definition perform (s : RenderImage B * World) (a : action)
    : RenderImage B * World :=
  let '(this, w) := s in
  match a with
  | ActRender => let '(_, this, w) := render this w in (this, w)
  | ActSanitizedStack => (this, snd (sanitizedStack this w))
  | ActGetRenderer => let _ := getRenderer this in (this, w)
  | ActMutate r items => (this, caller_mutates r items w)
  end.

(** The steps that are calls on the instance (not writes by the caller). *)
Definition is_method_call (a : action) : bool :=
  match a with
  | ActMutate _ _ => false
  | _ => true
  end.

(** The steps that are [render()] calls. *)
Definition is_render_call (a : action) : bool :=
  match a with
  | ActRender => true
  | _ => false
  end.

Definition lifetime (script : list action) (s : RenderImage B * World)
    : RenderImage B * World :=
  foldl perform s script.

End Orchestrator.

(** ** Reading the call log *)

(** The calls logged between two worlds. *)
Definition new_calls (w w' : World) : list event :=
  drop (length (calls w)) (calls w').

Definition is_drawImage (e : event) : bool :=
  match e with CallDrawImage _ => true | _ => false end.

Definition is_validateSettings (e : event) : bool :=
  match e with CallValidateSettings _ _ => true | _ => false end.

Definition is_render (e : event) : bool :=
  match e with CallRender _ _ => true | _ => false end.

Definition is_renderFinal (e : event) : bool :=
  match e with CallRenderFinal _ => true | _ => false end.

Definition is_getSize (e : event) : bool :=
  match e with CallGetSize _ => true | _ => false end.

Definition is_resizeTo (e : event) : bool :=
  match e with CallResizeTo _ _ => true | _ => false end.

(** A call of one of the phases of [render()]. *)
Definition is_render_phase (e : event) : bool :=
  is_validateSettings e || is_render e || is_renderFinal e
  || is_getSize e || is_resizeTo e.

(** A call on a renderer instance or class other than the probe. *)
Definition uses_renderer (e : event) : bool :=
  match e with
  | CallNew _ _ | CallDrawImage _ | CallRenderFinal _
  | CallGetSize _ | CallResizeTo _ _ => true
  | _ => false
  end.

(** A world with more calls logged. *)
Definition extend (w : World) (evs : list event) : World :=
  {| arrays := arrays w; calls := calls w ++ evs |}.

(** A world without arrays and without calls. *)
Definition empty_world : World := {| arrays := []; calls := [] |}.

(** The calls of the finalize and resize phases, as one [render()] can
    issue them: none; [renderFinal] alone when it does not fulfil; then
    [getSize]; then [resizeTo], with a size other than the one read. *)
Inductive finalize_calls : list event -> Prop :=
| finalize_not_reached : finalize_calls []
| finalize_failed c :
    adopt c <> Fulfilled -> finalize_calls [CallRenderFinal c]
| finalize_without_resize c size :
    adopt c = Fulfilled ->
    finalize_calls [CallRenderFinal c; CallGetSize size]
| finalize_with_resize c size size' c' :
    adopt c = Fulfilled -> size' <> size ->
    finalize_calls [CallRenderFinal c; CallGetSize size;
                    CallResizeTo size' c'].

(** A call whose promise has fulfilled. *)
Definition completed (e : event) : bool :=
  match e with
  | CallValidateSettings _ (Returns p) | CallRender _ (Returns p) =>
      is_fulfilled p
  | _ => false
  end.

(** The operation a call is addressed to. *)
Definition callee (e : event) : option OpId :=
  match e with
  | CallValidateSettings op _ | CallRender op _ => Some op
  | _ => None
  end.

(** The operations among the entries of a stack, in order. *)
Definition operations_of (stack : list entry) : list OpId :=
  omap (fun v => match v with JOperation op => Some op | _ => None end) stack.

(** Calls in the order of the phases of [render()] for the operations
    [l] of a sanitized stack: validations, then renders, then the calls
    of the finalize and resize phases; an operation is called at most
    once in each phase, in stack order; renders start only when every
    validation has fulfilled, and the finalize phase only when every
    render has. *)
Definition calls_in_phases {B : Type} (ops : OpId -> Operation.t B)
    (l : list OpId) (evs : list event) : Prop :=
  exists asked rs fs,
    evs = (validate_call ops <$> asked) ++ rs ++ fs /\
    asked `prefix_of` l /\
    Forall (fun e => is_render e = true) rs /\
    omap callee rs `prefix_of` l /\
    finalize_calls fs /\
    (rs <> [] \/ fs <> [] ->
     asked = l /\
     Forall (fun e => completed e = true) (validate_call ops <$> asked)) /\
    (fs <> [] ->
     omap callee rs = l /\ Forall (fun e => completed e = true) rs).

(** A call that fails with [e]: by a throw or by a rejected promise. *)
Definition fails_with (c : completion) (e : Error) : Prop :=
  c = Throws e \/ exists t, c = Returns {| tick := t; settles := Rejected e |}.


(** Backend selection in the words of the specification: WebGL when the
    preference is not canvas-only and WebGL is supported; else Canvas
    when it is supported; else none. *)
Definition spec_selection (webgl_supported canvas_supported canvas_only : bool)
    : option RendererKind :=
  if negb canvas_only && webgl_supported then Some WebGLRenderer
  else if canvas_supported then Some CanvasRenderer
  else None.

Definition canvas_only (preferredRenderer : option string) : bool :=
  match preferredRenderer with
  | Some s => String.eqb s "canvas"
  | None => false
  end.

(** ** A concrete host, for running the model *)

Module Demo.

Definition fulfilled_at (t : nat) : completion :=
  Returns {| tick := t; settles := Fulfilled |}.

Definition rejected_at (t : nat) (e : Error) : completion :=
  Returns {| tick := t; settles := Rejected e |}.

(** A renderer whose state is the pixel size it holds.  The flags say
    which classes report support and whether [renderFinal] succeeds. *)
Definition renderer (webgl canvas finalize_ok : bool) : Renderer Vector2.t :=
  {| isSupported k :=
       match k with WebGLRenderer => webgl | CanvasRenderer => canvas end;
     new_renderer _ dims := dims;
     drawImage img _ := Vector2.mk (width img) (height img);
     renderFinal r :=
       (r, if finalize_ok then fulfilled_at 1
           else rejected_at 1 "finalize failed"%string);
     getSize r := r;
     resizeTo size _ := (size, fulfilled_at 1) |}.

(** Operation 0 has invalid settings; operation 1 crops one pixel off
    each side; every other operation leaves the size alone. *)
Definition ops (op : OpId) : Operation.t Vector2.t :=
  match op with
  | 0 => Operation.mk _ (rejected_at 2 "invalid settings"%string)
                        (fun r => (r, fulfilled_at 1))
  | 1 => Operation.mk _ (fulfilled_at 1)
           (fun r => (Vector2.mk (Vector2.x r - 2) (Vector2.y r - 2),
                      fulfilled_at 3))
  | _ => Operation.mk _ (fulfilled_at 1) (fun r => (r, fulfilled_at 1))
  end.

(** The dimensions string "50x50" asks for that size; any other string
    keeps the size. *)
Definition calculateFinalDimensions (dimensions : string) (size : Vector2.t)
    : Vector2.t :=
  if String.eqb dimensions "50x50" then Vector2.mk 50 50 else size.

Definition image : Image := {| image_id := 7; width := 100; height := 100 |}.

(** The caller's heap: array 0 is the stack it hands over. *)
Definition world (stack : list entry) : World :=
  {| arrays := [stack]; calls := [] |}.

(** An instance as the constructor leaves it on a Canvas host. *)
Definition instance (dimensions : string) : RenderImage Vector2.t :=
  {| _options_preferredRenderer := None;
     _webglEnabled := false;
     _renderer := Some (CanvasRenderer, Vector2.mk 100 100);
     _image := image;
     _stack := 0;
     _dimensions := dimensions;
     _initialDimensions := Vector2.mk 100 100 |}.

(** A host where only the Canvas class is supported. *)
Definition canvas_host : Renderer Vector2.t := renderer false true true.

(** A host whose [renderFinal] fails. *)
Definition failing_host : Renderer Vector2.t := renderer false true false.

(** A host without any supported renderer class. *)
Definition bare_host : Renderer Vector2.t := renderer false false true.

(** The stack of the specification's example: three operations with a
    [null] and an [undefined] in between. *)
Definition mixed_stack : list entry :=
  [JOperation 1; JNull; JOperation 2; JUndefined; JOperation 3].

(** A stack whose second operation has invalid settings. *)
Definition invalid_stack : list entry :=
  [JOperation 1; JNull; JOperation 0; JOperation 2].

(** The world right after the construction of [instance] on
    [canvas_host], for a caller holding [stack]. *)
Definition constructed_world (stack : list entry) : World :=
  {| arrays := [stack];
     calls := [CallIsSupported WebGLRenderer false;
               CallIsSupported CanvasRenderer true;
               CallNew CanvasRenderer (Vector2.mk 100 100);
               CallDrawImage image] |}.

(** Operations that fail in the other ways: the validation of
    operation 4 throws; the [render] of operation 5 throws, after it has
    cropped; the [render] of operation 6 returns a promise that is
    rejected.  The others are those of [ops]. *)
Definition faulty_ops (op : OpId) : Operation.t Vector2.t :=
  match op with
  | 4 => Operation.mk _ (Throws "cannot validate"%string)
                        (fun r => (r, fulfilled_at 1))
  | 5 => Operation.mk _ (fulfilled_at 1)
           (fun r => (Vector2.mk (Vector2.x r - 2) (Vector2.y r - 2),
                      Throws "cannot render"%string))
  | 6 => Operation.mk _ (fulfilled_at 1)
           (fun r => (r, rejected_at 2 "render failed"%string))
  | _ => ops op
  end.



End Demo.

(** * Properties *)

(** Weakening what is known of every logged call, by cases on the
    kind of call. *)
Ltac weaken_calls H :=
  eapply Forall_impl; [exact H|];
  intros [] ?; first [done | intuition done].

(** ** Vector equality, the call log, [Promise.all] *)

Lemma equals_eq (a b : Vector2.t) : Vector2.equals a b = true <-> a = b.
Proof.
  destruct a as [ax ay], b as [bx by']. unfold Vector2.equals. simpl.
  rewrite andb_true_iff, !Z.eqb_eq. split.
  - intros [-> ->]. reflexivity.
  - intros [= -> ->]. split; reflexivity.
Qed.

Lemma new_calls_app (w w' : World) (evs : list event) :
  calls w' = calls w ++ evs -> new_calls w w' = evs.
Proof. intros E. unfold new_calls. rewrite E. apply drop_app_length. Qed.

Lemma earliest_rejection_elem (ps : list promise) (t : nat) (e : Error) :
  earliest_rejection ps = Some (t, e) ->
  exists p, p ∈ ps /\ settles p = Rejected e.
Proof.
  revert t e. induction ps as [|p ps IH]; intros t e; simpl; [discriminate|].
  destruct (settles p) as [|e0|] eqn:Ep.
  - intros E. destruct (IH _ _ E) as (q & Hq & Hs).
    exists q. split; [by apply list_elem_of_further | done].
  - destruct (earliest_rejection ps) as [[t' e']|] eqn:Er.
    + destruct (t' <? tick p)%nat.
      * intros [= <- <-]. destruct (IH _ _ eq_refl) as (q & Hq & Hs).
        exists q. split; [by apply list_elem_of_further | done].
      * intros [= <- <-]. exists p. split; [apply list_elem_of_here | done].
    + intros [= <- <-]. exists p. split; [apply list_elem_of_here | done].
  - intros E. destruct (IH _ _ E) as (q & Hq & Hs).
    exists q. split; [by apply list_elem_of_further | done].
Qed.

Lemma earliest_rejection_some (ps : list promise) (p : promise) (e : Error) :
  p ∈ ps -> settles p = Rejected e -> earliest_rejection ps <> None.
Proof.
  induction 1 as [p ps|p q ps Hin IH]; intros Hs; simpl.
  - rewrite Hs. destruct (earliest_rejection ps) as [[t' e']|]; [|done].
    by destruct (t' <? tick p)%nat.
  - specialize (IH Hs).
    destruct (settles q); [done| |done].
    destruct (earliest_rejection ps) as [[t' e']|]; [|done].
    by destruct (t' <? tick q)%nat.
Qed.


(** [Promise.all] is rejected as soon as one promise is, with the error
    of one of the rejected promises. *)
Lemma Promise_all_rejected (ps : list promise) (p : promise) (e : Error) :
  p ∈ ps -> settles p = Rejected e ->
  exists q e', Promise_all ps = Rejected e' /\ q ∈ ps /\ settles q = Rejected e'.
Proof.
  intros Hin Hs. unfold Promise_all.
  pose proof (earliest_rejection_some ps p e Hin Hs) as Hne.
  destruct (earliest_rejection ps) as [[t e']|] eqn:E; [|done].
  destruct (earliest_rejection_elem _ _ _ E) as (q & Hq & Hqs).
  by exists q, e'.
Qed.

(** [Promise.all] fulfils only when every promise has. *)
Lemma Promise_all_fulfilled (ps : list promise) :
  Promise_all ps = Fulfilled -> Forall (fun p => is_fulfilled p = true) ps.
Proof.
  unfold Promise_all. destruct (earliest_rejection ps) as [[t e]|]; [done|].
  destruct (forallb is_fulfilled ps) eqn:E; [|done].
  intros _. apply Forall_forall. intros p Hp.
  rewrite forallb_forall in E. apply E. by apply list_elem_of_In.
Qed.

(** ** The sanitized stack *)

Lemma filter_truthy_all (items : list entry) :
  Forall (fun v => truthy v = true) (List.filter truthy items).
Proof.
  apply Forall_forall. intros v Hv.
  apply list_elem_of_In, filter_In in Hv. tauto.
Qed.

Lemma filter_truthy_sublist (items : list entry) :
  sublist (List.filter truthy items) items.
Proof.
  induction items as [|v items IH]; simpl; [constructor|].
  destruct (truthy v); by constructor.
Qed.

Lemma filter_truthy_id (stack : list entry) :
  Forall (fun v => truthy v = true) stack -> List.filter truthy stack = stack.
Proof.
  induction 1 as [|v stack Hv _ IH]; simpl; [done|]. by rewrite Hv, IH.
Qed.

Lemma truthy_operations (stack : list entry) :
  Forall (fun v => truthy v = true) stack ->
  stack = JOperation <$> operations_of stack.
Proof.
  induction 1 as [|v stack Hv _ IH]; [done|].
  destruct v; try discriminate. unfold operations_of in *. simpl. by f_equal.
Qed.

(** The loop appends the truthy entries, in order, to the array it
    builds, and touches nothing else. *)
Lemma sanitize_loop_spec (items acc : list entry) (r : ref) (w : World) :
  arrays w !! r = Some acc ->
  sanitize_loop items r w =
    {| arrays := <[r := acc ++ List.filter truthy items]> (arrays w);
       calls := calls w |}.
Proof.
  revert acc w. induction items as [|v items IH]; intros acc w Hr; simpl.
  - rewrite app_nil_r, list_insert_id by done. by destruct w.
  - destruct (truthy v) eqn:Ev; simpl.
    + erewrite IH.
      2:{ unfold push; simpl. rewrite list_lookup_alter_eq, Hr. reflexivity. }
      unfold push; simpl. f_equal. rewrite <- app_assoc. simpl.
      apply list_eq. intros i. destruct (decide (i = r)) as [->|Hne].
      * rewrite !list_lookup_insert_eq; [done| |].
        -- by eapply lookup_lt_Some.
        -- rewrite length_alter. by eapply lookup_lt_Some.
      * by rewrite !list_lookup_insert_ne, list_lookup_alter_ne.
    + by apply IH.
Qed.

Section Proofs.
Context {B : Type} `{Renderer B}.
Variable ops : OpId -> Operation.t B.
Variable calculateFinalDimensions : string -> Vector2.t -> Vector2.t.

Lemma sanitizedStack_spec (this : RenderImage B) (w : World)
    (items : list entry) :
  arrays w !! _stack this = Some items ->
  sanitizedStack this w =
    (Returned (length (arrays w)),
     {| arrays := arrays w ++ [List.filter truthy items]; calls := calls w |}).
Proof.
  intros Hs. unfold sanitizedStack, alloc_array. rewrite Hs. f_equal.
  erewrite sanitize_loop_spec.
  2:{ simpl. rewrite lookup_app_r, Nat.sub_diag by lia. reflexivity. }
  simpl. f_equal.
  rewrite insert_app_r_alt, Nat.sub_diag by lia. reflexivity.
Qed.

(** ** The two loops of [render] *)

Lemma validate_loop_frame (stack : list entry) (ps : list promise) (w : World) :
  arrays (fst (validate_loop ops stack ps w)) = arrays w /\
  exists evs,
    calls (fst (validate_loop ops stack ps w)) = calls w ++ evs /\
    Forall (fun e => is_validateSettings e = true) evs.
Proof.
  revert ps w. induction stack as [|v stack IH]; intros ps w; simpl.
  - split; [done|]. exists []. by rewrite app_nil_r.
  - destruct v; simpl;
      try (split; [done|]; exists []; by rewrite app_nil_r).
    destruct (Operation.validateSettings (ops op)) as [e|p] eqn:Ec; simpl.
    + split; [done|]. eexists [_]. split; [done|]. by repeat constructor.
    + destruct (IH (ps ++ [p]) (log (CallValidateSettings op (Returns p)) w))
        as (Ha & evs & Hc & Hv).
      split; [by rewrite Ha|].
      exists (CallValidateSettings op (Returns p) :: evs).
      rewrite Hc. simpl. rewrite <- app_assoc. split; [done|]. by constructor.
Qed.

(** When no call throws, every entry was an operation, every operation
    was asked once, in stack order, and the promises collected are the
    ones the operations returned. *)
Lemma validate_loop_inr (stack : list entry) (ps ps' : list promise)
    (w w' : World) :
  validate_loop ops stack ps w = (w', inr ps') ->
  stack = JOperation <$> operations_of stack /\
  calls w' = calls w ++ (validate_call ops <$> operations_of stack) /\
  Returns <$> ps' =
    (Returns <$> ps)
    ++ ((fun op => Operation.validateSettings (ops op)) <$> operations_of stack).
Proof.
  revert ps w. induction stack as [|v stack IH]; intros ps w; simpl.
  - intros [= <- <-]. unfold operations_of. simpl. by rewrite !app_nil_r.
  - destruct v; try discriminate.
    destruct (Operation.validateSettings (ops op)) as [e|p] eqn:Ec;
      [discriminate|].
    intros E. destruct (IH _ _ E) as (Hs & Hc & Hp).
    unfold operations_of in *. simpl. split; [by f_equal|]. split.
    + rewrite Hc. simpl. rewrite <- app_assoc. simpl.
      unfold validate_call at 2. by rewrite Ec.
    + rewrite Hp, fmap_app, <- app_assoc. simpl. by rewrite Ec.
Qed.


Lemma render_loop_frame (stack : list entry) (ps : list promise) (r : B)
    (w : World) :
  arrays (snd (fst (render_loop ops stack ps r w))) = arrays w /\
  exists evs,
    calls (snd (fst (render_loop ops stack ps r w))) = calls w ++ evs /\
    Forall (fun e => is_render e = true) evs.
Proof.
  revert ps r w. induction stack as [|v stack IH]; intros ps r w; simpl.
  - split; [done|]. exists []. by rewrite app_nil_r.
  - destruct v; simpl;
      try (split; [done|]; exists []; by rewrite app_nil_r).
    destruct (Operation.render (ops op) r) as [r1 [e|p]] eqn:Ec; simpl.
    + split; [done|]. eexists [_]. split; [done|]. by repeat constructor.
    + destruct (IH (ps ++ [p]) r1 (log (CallRender op (Returns p)) w))
        as (Ha & evs & Hc & Hv).
      split; [by rewrite Ha|].
      exists (CallRender op (Returns p) :: evs).
      rewrite Hc. simpl. rewrite <- app_assoc. split; [done|]. by constructor.
Qed.

(** When no [render] call throws, every operation of the stack was
    called once, in order, and returned the promises collected. *)
Lemma render_loop_inr (stack : list entry) (ps ps' : list promise) (r r' : B)
    (w w' : World) :
  render_loop ops stack ps r w = ((r', w'), inr ps') ->
  exists evs new,
    calls w' = calls w ++ evs /\ ps' = ps ++ new /\
    omap callee evs = operations_of stack /\
    Forall2 (fun e p => exists op, e = CallRender op (Returns p)) evs new.
Proof.
  revert ps r w. induction stack as [|v stack IH]; intros ps r w; simpl.
  - intros [= <- <- <-]. exists [], []. rewrite !app_nil_r.
    repeat split. constructor.
  - destruct v; try discriminate.
    destruct (Operation.render (ops op) r) as [r1 [e|p]] eqn:Ec;
      [discriminate|].
    intros E. destruct (IH _ _ _ E) as (evs & new & Hc & Hp & Ho & Hf).
    exists (CallRender op (Returns p) :: evs), (p :: new).
    rewrite Hc, Hp. simpl. rewrite <- !app_assoc. repeat split.
    + unfold operations_of in *. simpl. by f_equal.
    + constructor; [by exists op | done].
Qed.

(** If moreover [Promise.all] of these promises fulfils, every render
    step has completed. *)
Lemma render_loop_completed (stack : list entry) (ps' : list promise)
    (r r' : B) (w w' : World) :
  render_loop ops stack [] r w = ((r', w'), inr ps') ->
  Promise_all ps' = Fulfilled ->
  exists evs,
    calls w' = calls w ++ evs /\
    omap callee evs = operations_of stack /\
    Forall (fun e => is_render e = true /\ completed e = true) evs.
Proof.
  intros E Hall. destruct (render_loop_inr _ _ _ _ _ _ _ E)
    as (evs & new & Hc & Hp & Ho & Hf).
  simpl in Hp. subst ps'. exists evs. repeat split; try done.
  apply Promise_all_fulfilled in Hall. clear -Hf Hall.
  induction Hf as [|e p evs new (op & ->) _ IH]; [constructor|].
  inversion Hall; subst. constructor; [done | by apply IH].
Qed.

(** ** The promise chain *)

(** The chain always runs in one of the ways of [chain_runs]. *)
Lemma render_chain_runs (dimensions : string) (stack : list entry)
    (vps : list promise) (r : B) (w : World) :
  let '((r', w'), p) :=
    render_chain ops calculateFinalDimensions dimensions stack vps (r, w) in
  chain_runs ops calculateFinalDimensions dimensions stack vps r w r' w' p.
Proof.
  unfold render_chain, then_ at 3.
  destruct (Promise_all vps) eqn:Ev; simpl.
  3:{ rewrite <- Ev. apply validation_not_fulfilled. by rewrite Ev. }
  2:{ rewrite <- Ev. apply validation_not_fulfilled. by rewrite Ev. }
  destruct (render_loop ops stack [] r w) as [[r1 w1] [e|rps]] eqn:El; simpl.
  { by eapply render_threw. }
  destruct (Promise_all rps) eqn:Er; simpl.
  3:{ rewrite <- Er. eapply render_not_fulfilled; eauto. by rewrite Er. }
  2:{ rewrite <- Er. eapply render_not_fulfilled; eauto. by rewrite Er. }
  unfold finalize_phase.
  destruct (renderFinal r1) as [r2 c] eqn:Ef.
  destruct (adopt c) eqn:Ea; simpl.
  3:{ rewrite <- Ea. eapply finalize_not_fulfilled; eauto. by rewrite Ea. }
  2:{ rewrite <- Ea. eapply finalize_not_fulfilled; eauto. by rewrite Ea. }
  unfold resize_phase.
  destruct (Vector2.equals _ _) eqn:Eq.
  { simpl. by eapply resize_elided. }
  destruct (resizeTo _ r2) as [r3 c'] eqn:Ez.
  by eapply resized.
Qed.


(** ** [render] on a valid stack reference *)

Lemma render_sanitized (this : RenderImage B) (w : World) (items : list entry) :
  arrays w !! _stack this = Some items ->
  render ops calculateFinalDimensions this w =
    render_on ops calculateFinalDimensions this (List.filter truthy items)
      {| arrays := arrays w ++ [List.filter truthy items]; calls := calls w |}.
Proof.
  intros Hs. unfold render. rewrite (sanitizedStack_spec _ _ _ Hs). simpl.
  by rewrite lookup_app_r, Nat.sub_diag by lia.
Qed.



(** C4: the sanitized stack is the subsequence of the truthy entries of
    the caller's stack: [sanitizedStack] returns an array whose contents
    are the entries of [this._stack] filtered by truthiness, so every
    falsy entry is left out and the operations keep their relative
    order. *)
Theorem sanitizedStack_truthy_subsequence (this : RenderImage B) (w : World)
    (items : list entry) :
  arrays w !! _stack this = Some items ->
  exists r w',
    sanitizedStack this w = (Returned r, w') /\
    arrays w' !! r = Some (List.filter truthy items) /\
    Forall (fun v => truthy v = true) (List.filter truthy items) /\
    sublist (List.filter truthy items) items /\
    (forall v, v ∈ items -> truthy v = true -> v ∈ List.filter truthy items).
Proof.
  intros Hs. eexists _, _. split; [by apply sanitizedStack_spec|].
  split; [|split; [|split]].
  - simpl. rewrite lookup_app_r, Nat.sub_diag by lia. reflexivity.
  - apply filter_truthy_all.
  - apply filter_truthy_sublist.
  - intros v Hv Ht. apply list_elem_of_In, filter_In.
    split; [by apply list_elem_of_In | done].
Qed.




(** ** Construction *)

(** What [select_renderer] leaves behind, by the two probes and the
    preference. *)
Lemma select_renderer_spec (this : RenderImage B) (w : World) :
  _renderer this = None ->
  select_renderer this w =
    if isSupported WebGLRenderer && not_canvas (_options_preferredRenderer this)
    then
      (set_renderer this WebGLRenderer
         (new_renderer WebGLRenderer (_initialDimensions this)) true,
       {| arrays := arrays w;
          calls := calls w ++
            [CallIsSupported WebGLRenderer (isSupported WebGLRenderer);
             CallNew WebGLRenderer (_initialDimensions this)] |})
    else if isSupported CanvasRenderer then
      (set_renderer this CanvasRenderer
         (new_renderer CanvasRenderer (_initialDimensions this)) false,
       {| arrays := arrays w;
          calls := calls w ++
            [CallIsSupported WebGLRenderer (isSupported WebGLRenderer);
             CallIsSupported CanvasRenderer true;
             CallNew CanvasRenderer (_initialDimensions this)] |})
    else
      (this,
       {| arrays := arrays w;
          calls := calls w ++
            [CallIsSupported WebGLRenderer (isSupported WebGLRenderer);
             CallIsSupported CanvasRenderer false] |}).
Proof.
  intros _. unfold select_renderer, log. simpl.
  destruct (isSupported WebGLRenderer && _) eqn:E1.
  - by rewrite <- app_assoc.
  - destruct (isSupported CanvasRenderer) eqn:E2;
      by rewrite <- !app_assoc.
Qed.

Lemma not_canvas_only (preferredRenderer : option string) :
  not_canvas preferredRenderer = negb (canvas_only preferredRenderer).
Proof. by destruct preferredRenderer. Qed.

(** C2: for every pair of [isSupported()] results and every preference,
    the constructor selects as the specification words it: the WebGL
    renderer when WebGL reports support and the preference is not
    "canvas", otherwise the Canvas renderer when it reports support,
    otherwise it throws; and [_webglEnabled] is [true] exactly when the
    WebGL renderer was selected. *)
Theorem constructor_selects_backend (image : Image) (operationsStack : ref)
    (dimensions : string) (preferredRenderer : option string) (w : World) :
  match fst (constructor image operationsStack dimensions preferredRenderer w)
  with
  | Returned this =>
      exists k r,
        _renderer this = Some (k, r) /\
        spec_selection (isSupported WebGLRenderer) (isSupported CanvasRenderer)
          (canvas_only preferredRenderer) = Some k /\
        _webglEnabled this =
          match k with WebGLRenderer => true | CanvasRenderer => false end
  | Threw e =>
      e = NoRendererAvailable /\
      spec_selection (isSupported WebGLRenderer) (isSupported CanvasRenderer)
        (canvas_only preferredRenderer) = None
  end.
Proof.
  unfold constructor, _initRenderer, spec_selection.
  rewrite select_renderer_spec by done. simpl.
  rewrite not_canvas_only, (andb_comm (negb _)).
  destruct (isSupported WebGLRenderer && negb _) eqn:E1; simpl.
  - by eexists _, _.
  - destruct (isSupported CanvasRenderer) eqn:E2; simpl.
    + by eexists _, _.
    + done.
Qed.

(** C6: when neither renderer class reports support, the constructor
    throws (the failure is the synchronous outcome of the call itself)
    the error "Neither Canvas nor WebGL renderer are supported.", having
    only probed the two classes: no renderer is created and [drawImage]
    is not called. *)
Theorem no_renderer_available (image : Image) (operationsStack : ref)
    (dimensions : string) (preferredRenderer : option string) (w : World) :
  isSupported WebGLRenderer = false ->
  isSupported CanvasRenderer = false ->
  exists w',
    constructor image operationsStack dimensions preferredRenderer w
    = (Threw NoRendererAvailable, w') /\
    new_calls w w' = [CallIsSupported WebGLRenderer false;
                      CallIsSupported CanvasRenderer false] /\
    Forall (fun ev => uses_renderer ev = false /\ is_drawImage ev = false)
      (new_calls w w') /\
    arrays w' = arrays w.
Proof.
  intros Hw Hc. unfold constructor, _initRenderer.
  rewrite select_renderer_spec by done. rewrite Hw, Hc. simpl.
  eexists. split; [reflexivity|].
  assert (E : new_calls w
    {| arrays := arrays w;
       calls := calls w ++ [CallIsSupported WebGLRenderer false;
                            CallIsSupported CanvasRenderer false] |}
    = [CallIsSupported WebGLRenderer false;
       CallIsSupported CanvasRenderer false]) by by apply new_calls_app.
  rewrite E. split; [done|]. split; [|done]. by repeat constructor.
Qed.

(** A constructed instance: the calls of the construction end with the
    one [drawImage] call, on the image given; the instance has a
    renderer and keeps the reference to the caller's stack. *)
Lemma constructor_returned (image : Image) (operationsStack : ref)
    (dimensions : string) (preferredRenderer : option string) (w w' : World)
    (this : RenderImage B) :
  constructor image operationsStack dimensions preferredRenderer w
  = (Returned this, w') ->
  arrays w' = arrays w /\
  _stack this = operationsStack /\ _dimensions this = dimensions /\
  (exists k r, _renderer this = Some (k, r)) /\
  exists probes,
    calls w' = calls w ++ probes ++ [CallDrawImage image] /\
    Forall (fun ev => is_drawImage ev = false /\ is_render_phase ev = false)
      probes.
Proof.
  unfold constructor, _initRenderer.
  rewrite select_renderer_spec by done. simpl.
  destruct (isSupported WebGLRenderer && _) eqn:E1; simpl.
  - intros [= <- <-]. simpl. repeat split; [by eexists _, _|].
    eexists [_; _]. rewrite <- app_assoc. split; [done|].
    by repeat constructor.
  - destruct (isSupported CanvasRenderer) eqn:E2; simpl; [|discriminate].
    intros [= <- <-]. simpl. repeat split; [by eexists _, _|].
    eexists [_; _; _]. rewrite <- app_assoc. split; [done|].
    by repeat constructor.
Qed.

(** ** What the methods leave untouched *)

Lemma sanitizedStack_frame (this : RenderImage B) (w : World) :
  calls (snd (sanitizedStack this w)) = calls w /\
  exists fresh, arrays (snd (sanitizedStack this w)) = arrays w ++ [fresh].
Proof.
  destruct (arrays w !! _stack this) as [items|] eqn:Hs.
  - rewrite (sanitizedStack_spec _ _ _ Hs). simpl. split; [done | by eexists].
  - unfold sanitizedStack, alloc_array. rewrite Hs. simpl.
    split; [done | by eexists].
Qed.

Lemma phase_calls_app (evs evs' : list event) :
  Forall (fun e => is_render_phase e = true) evs ->
  Forall (fun e => is_render_phase e = true) evs' ->
  Forall (fun e => is_render_phase e = true) (evs ++ evs').
Proof. intros. by apply Forall_app. Qed.

Lemma chain_runs_frame (dimensions : string) (stack : list entry)
    (vps : list promise) (r r' : B) (w w' : World) (p : settlement) :
  chain_runs ops calculateFinalDimensions dimensions stack vps r w r' w' p ->
  arrays w' = arrays w /\
  exists evs, calls w' = calls w ++ evs /\
    Forall (fun e => is_render_phase e = true) evs.
Proof.
  assert (Hr : forall r1 w1 res,
    render_loop ops stack [] r w = ((r1, w1), res) ->
    arrays w1 = arrays w /\
    exists evs, calls w1 = calls w ++ evs /\
      Forall (fun e => is_render_phase e = true) evs).
  { intros r1 w1 res E.
    destruct (render_loop_frame stack [] r w) as (Ha & evs & Hc & Hf).
    rewrite E in Ha, Hc. simpl in *. split; [done|]. exists evs.
    split; [done|]. weaken_calls Hf. }
  destruct 1 as [?|r1 w1 e ? El|r1 w1 rps ? El ?|r1 w1 rps r2 c ? El ? ? ?
                 |r1 w1 rps r2 c ? El ? ? ? ?|r1 w1 rps r2 c r3 c' ? El ? ? ? ? ?];
    try (destruct (Hr _ _ _ El) as (Ha & evs & Hc & Hf)); simpl.
  - split; [done|]. exists []. by rewrite app_nil_r.
  - eauto.
  - eauto.
  - split; [done|]. exists (evs ++ [CallRenderFinal c]).
    rewrite Hc, <- app_assoc. split; [done|].
    apply phase_calls_app; [done | by repeat constructor].
  - split; [done|].
    exists (evs ++ [CallRenderFinal c; CallGetSize (getSize r2)]).
    rewrite Hc, <- !app_assoc. split; [done|].
    apply phase_calls_app; [done | by repeat constructor].
  - split; [done|].
    exists (evs ++ [CallRenderFinal c; CallGetSize (getSize r2);
                    CallResizeTo
                      (calculateFinalDimensions dimensions (getSize r2)) c']).
    rewrite Hc, <- !app_assoc. split; [done|].
    apply phase_calls_app; [done | by repeat constructor].
Qed.

Lemma render_on_frame (this : RenderImage B) (stack : list entry) (w : World) :
  let '(res, this', w') := render_on ops calculateFinalDimensions this stack w in
  arrays w' = arrays w /\
  _stack this' = _stack this /\ _dimensions this' = _dimensions this /\
  (is_Some (_renderer this) -> is_Some (_renderer this')) /\
  exists evs, calls w' = calls w ++ evs /\
    Forall (fun e => is_render_phase e = true) evs.
Proof.
  unfold render_on.
  destruct (validate_loop_frame stack [] w) as (Ha & evs & Hc & Hf).
  assert (Hf' : Forall (fun e => is_render_phase e = true) evs).
  { weaken_calls Hf. }
  destruct (validate_loop ops stack [] w) as [w1 [e|vps]]; simpl in *.
  - repeat split; try done. by exists evs.
  - destruct (_renderer this) as [[k r]|] eqn:Er.
    + pose proof (render_chain_runs (_dimensions this) stack vps r w1) as Hch.
      destruct (render_chain _ _ _ _ _ _) as [[r' w'] p].
      destruct (chain_runs_frame _ _ _ _ _ _ _ _ Hch) as (Ha' & evs' & Hc' & Hf'').
      simpl. repeat split; try congruence; try done.
      exists (evs ++ evs'). rewrite Hc', Hc, <- app_assoc. split; [done|].
      by apply phase_calls_app.
    + repeat split; try done. by exists evs.
Qed.

(** [render()] allocates its private array and touches no other; the
    calls it adds belong to its phases. *)
Lemma render_frame (this : RenderImage B) (w : World) :
  let '(res, this', w') := render ops calculateFinalDimensions this w in
  (exists ext, arrays w' = arrays w ++ ext) /\
  _stack this' = _stack this /\ _dimensions this' = _dimensions this /\
  (is_Some (_renderer this) -> is_Some (_renderer this')) /\
  exists evs, calls w' = calls w ++ evs /\
    Forall (fun e => is_render_phase e = true) evs.
Proof.
  unfold render.
  destruct (sanitizedStack_frame this w) as (Hc & fresh & Ha).
  destruct (sanitizedStack this w) as [[e|r] w0]; simpl in *.
  - repeat split; try done; [by eexists|].
    exists []. by rewrite app_nil_r.
  - pose proof (render_on_frame this (default [] (arrays w0 !! r)) w0) as Hon.
    destruct (render_on _ _ _ _ _) as [[res this'] w'].
    destruct Hon as (Ha' & Hs & Hd & Hr & evs & Hc' & Hf).
    repeat split; try done.
    + exists [fresh]. congruence.
    + exists evs. split; [congruence | done].
Qed.

(** Over any use of the instance by the caller, the field [_stack] stays
    the reference given, the renderer stays set, and the only calls
    added are those of the phases of [render()]. *)
Lemma lifetime_frame (script : list action) (this : RenderImage B) (w : World) :
  let '(this', w') := lifetime ops calculateFinalDimensions script (this, w) in
  _stack this' = _stack this /\
  (is_Some (_renderer this) -> is_Some (_renderer this')) /\
  exists evs, calls w' = calls w ++ evs /\
    Forall (fun e => is_render_phase e = true) evs.
Proof.
  unfold lifetime. revert this w.
  induction script as [|a script IH]; intros this w; cbn [foldl].
  - repeat split; try done. exists []. by rewrite app_nil_r.
  - assert (Hstep : let '(this1, w1) :=
        perform ops calculateFinalDimensions (this, w) a in
      _stack this1 = _stack this /\
      (is_Some (_renderer this) -> is_Some (_renderer this1)) /\
      exists evs, calls w1 = calls w ++ evs /\
        Forall (fun e => is_render_phase e = true) evs).
    { destruct a; simpl.
      - pose proof (render_frame this w) as Hr.
        destruct (render _ _ _ _) as [[res this1] w1].
        destruct Hr as (_ & Hs & _ & Hr & Hc). done.
      - destruct (sanitizedStack_frame this w) as (Hc & _).
        repeat split; try done. exists []. by rewrite app_nil_r.
      - repeat split; try done. exists []. by rewrite app_nil_r.
      - repeat split; try done. exists []. by rewrite app_nil_r. }
    destruct (perform _ _ _ _) as [this1 w1].
    destruct Hstep as (Hs1 & Hr1 & evs1 & Hc1 & Hf1).
    specialize (IH this1 w1).
    destruct (foldl _ _ _) as [this' w'].
    destruct IH as (Hs & Hr & evs & Hc & Hf).
    split; [congruence|]. split; [tauto|].
    exists (evs1 ++ evs). rewrite Hc, Hc1, <- app_assoc. split; [done|].
    by apply phase_calls_app.
Qed.

(** Calls on the instance only ever extend the array store. *)
Lemma lifetime_arrays (script : list action) (this : RenderImage B)
    (w : World) :
  forallb is_method_call script = true ->
  exists ext,
    arrays (snd (lifetime ops calculateFinalDimensions script (this, w)))
    = arrays w ++ ext.
Proof.
  unfold lifetime. revert this w.
  induction script as [|a script IH]; intros this w; cbn [foldl forallb].
  - intros _. exists []. by rewrite app_nil_r.
  - intros [Ha Hrest]%andb_true_iff.
    assert (Hstep : exists ext1,
      arrays (snd (perform ops calculateFinalDimensions (this, w) a))
      = arrays w ++ ext1).
    { destruct a; simpl; try discriminate.
      - pose proof (render_frame this w) as Hr.
        destruct (render _ _ _ _) as [[res this1] w1].
        by destruct Hr as (Hext & _).
      - by destruct (sanitizedStack_frame this w) as (_ & fresh & ->); eexists.
      - exists []. by rewrite app_nil_r. }
    destruct (perform _ _ _ _) as [this1 w1]. destruct Hstep as (ext1 & E1).
    destruct (IH this1 w1 Hrest) as (ext & E). simpl in E1.
    exists (ext1 ++ ext). by rewrite E, E1, <- app_assoc.
Qed.

(** C7: for every instance whose construction succeeds, [drawImage] is
    called exactly once, with the image given to the constructor; the
    call is the last one of the construction, and every call of a phase
    of [render()] - whatever the caller then does with the instance -
    comes after it. *)
Theorem drawImage_once_at_construction (image : Image) (operationsStack : ref)
    (dimensions : string) (preferredRenderer : option string)
    (w w1 : World) (this : RenderImage B) (script : list action) :
  constructor image operationsStack dimensions preferredRenderer w
  = (Returned this, w1) ->
  let '(this', w') :=
    lifetime ops calculateFinalDimensions script (this, w1) in
  exists probes later,
    new_calls w w1 = probes ++ [CallDrawImage image] /\
    new_calls w w' = probes ++ CallDrawImage image :: later /\
    Forall (fun ev => is_drawImage ev = false /\ is_render_phase ev = false)
      probes /\
    Forall (fun ev => is_render_phase ev = true /\ is_drawImage ev = false)
      later /\
    List.filter is_drawImage (new_calls w w') = [CallDrawImage image].
Proof.
  intros Hc.
  destruct (constructor_returned _ _ _ _ _ _ _ Hc)
    as (_ & _ & _ & _ & probes & Hc1 & Hp).
  pose proof (lifetime_frame script this w1) as Hl.
  destruct (lifetime _ _ _ _) as [this' w'].
  destruct Hl as (_ & _ & later & Hc2 & Hlater).
  exists probes, later.
  assert (E : calls w' = calls w ++ probes ++ CallDrawImage image :: later).
  { rewrite Hc2, Hc1, <- !app_assoc. done. }
  rewrite (new_calls_app _ _ _ Hc1), (new_calls_app _ _ _ E).
  assert (Hl' : Forall (fun ev => is_render_phase ev = true /\
                                  is_drawImage ev = false) later).
  { weaken_calls Hlater. }
  repeat split; try done.
  rewrite List.filter_app. simpl.
  assert (E1 : List.filter is_drawImage probes = []).
  { clear -Hp. induction Hp as [|ev probes [Hd _] _ IH]; [done|].
    simpl. by rewrite Hd. }
  assert (E2 : List.filter is_drawImage later = []).
  { clear -Hl'. induction Hl' as [|ev later [_ Hd] _ IH]; [done|].
    simpl. by rewrite Hd. }
  by rewrite E1, E2.
Qed.

(** C9: no method of the orchestrator changes an array that exists in
    the caller's heap, the operations stack in particular: after the
    constructor, after [render()], after [sanitizedStack], and after any
    sequence of calls on the instance, the array holds the same entries
    in the same order ([getRenderer] takes and gives back no store at
    all); the field [_stack] keeps referring to it; and the array
    [sanitizedStack] returns is a new one, which did not exist before
    the call and so is not the caller's. *)
Theorem caller_stack_never_mutated (this : RenderImage B) (w : World)
    (a : ref) (items : list entry) (image : Image) (dimensions : string)
    (preferredRenderer : option string) (script : list action) :
  arrays w !! a = Some items ->
  arrays (snd (constructor image a dimensions preferredRenderer w)) !! a
    = Some items /\
  (let '(_, this', w') := render ops calculateFinalDimensions this w in
   arrays w' !! a = Some items /\ _stack this' = _stack this) /\
  getRenderer this = _renderer this /\
  (let '(res, w') := sanitizedStack this w in
   arrays w' !! a = Some items /\
   forall r, res = Returned r -> arrays w !! r = None /\ r <> a) /\
  (forallb is_method_call script = true ->
   arrays (snd (lifetime ops calculateFinalDimensions script (this, w))) !! a
     = Some items).
Proof.
  intros Ha. split; [|split; [|split; [done|split]]].
  - unfold constructor, _initRenderer.
    rewrite select_renderer_spec by done. simpl.
    destruct (isSupported WebGLRenderer && _); simpl; [done|].
    by destruct (isSupported CanvasRenderer).
  - pose proof (render_frame this w) as Hr.
    destruct (render _ _ _ _) as [[res this'] w'].
    destruct Hr as ((ext & ->) & Hs & _). split; [|done].
    by apply lookup_app_l_Some.
  - destruct (sanitizedStack_frame this w) as (_ & fresh & Hf).
    destruct (sanitizedStack this w) as [res w'] eqn:E. simpl in Hf.
    split; [rewrite Hf; by apply lookup_app_l_Some|].
    intros r ->. assert (r = length (arrays w)) as ->.
    { revert E. unfold sanitizedStack, alloc_array.
      destruct (arrays w !! _stack this); [|discriminate]. by intros [= <- _]. }
    split; [by apply lookup_ge_None_2|].
    apply lookup_lt_Some in Ha. lia.
  - intros Hm. destruct (lifetime_arrays script this w Hm) as (ext & ->).
    by apply lookup_app_l_Some.
Qed.

(** A [render()] that returns its promise has asked every operation
    of the stack it runs on to validate, in order, before anything
    else, and no operation besides. *)
Lemma render_on_validates (this this' : RenderImage B) (stack : list entry)
    (w w' : World) (p : settlement) :
  render_on ops calculateFinalDimensions this stack w = (Async p, this', w') ->
  exists rest,
    calls w' = calls w ++ (validate_call ops <$> operations_of stack) ++ rest /\
    Forall (fun e => is_validateSettings e = false) rest.
Proof.
  unfold render_on.
  destruct (validate_loop ops stack [] w) as [w1 [e|vps]] eqn:El; [discriminate|].
  destruct (validate_loop_inr _ _ _ _ _ El) as (_ & Hc1 & _).
  destruct (_renderer this) as [[k r]|].
  2:{ intros [= _ _ <-]. exists []. by rewrite app_nil_r. }
  pose proof (render_chain_runs (_dimensions this) stack vps r w1) as Hch.
  destruct (render_chain _ _ _ _ _ _) as [[r1 w2] p'].
  intros [= _ _ <-].
  assert (Hrest : exists rest, calls w2 = calls w1 ++ rest /\
            Forall (fun e => is_validateSettings e = false) rest).
  { destruct Hch as [Hv|? ? e Hv Er|? ? rps Hv Er Hr|? ? rps r2 c Hv Er Hr Hf Ha
                     |? ? rps r2 c Hv Er Hr Hf Ha He
                     |? ? rps r2 c r3 c' Hv Er Hr Hf Ha He Hz];
      try (destruct (render_loop_frame stack [] r w1) as (_ & rs & Hc & Hrs);
           rewrite Er in Hc; simpl in Hc;
           assert (Hrs' : Forall (fun e => is_validateSettings e = false) rs)
             by weaken_calls Hrs).
    - exists []. by rewrite app_nil_r.
    - by exists rs.
    - by exists rs.
    - exists (rs ++ [CallRenderFinal c]). simpl. rewrite Hc, <- app_assoc.
      split; [done|]. apply Forall_app. split; [done | by repeat constructor].
    - exists (rs ++ [CallRenderFinal c; CallGetSize (getSize r2)]). simpl.
      rewrite Hc, <- !app_assoc.
      split; [done|]. apply Forall_app. split; [done | by repeat constructor].
    - eexists (rs ++ [CallRenderFinal c; CallGetSize (getSize r2); _]). simpl.
      rewrite Hc, <- !app_assoc.
      split; [done|]. apply Forall_app. split; [done | by repeat constructor]. }
  destruct Hrest as (rest & Hc2 & Hrest). exists rest.
  by rewrite Hc2, Hc1, <- app_assoc.
Qed.

(** C8: the sanitized stack is computed anew by every [render()]: when
    the caller overwrites its stack between two calls, the second
    [render()] builds a new array holding the truthy entries of the new
    contents, and runs its phases on exactly those (as the first call
    did on the truthy entries of the old contents). *)
Theorem render_recomputes_sanitized_stack (this : RenderImage B) (w : World)
    (items items' : list entry) :
  arrays w !! _stack this = Some items ->
  let '(res1, this1, w1) := render ops calculateFinalDimensions this w in
  let w2 := caller_mutates (_stack this1) items' w1 in
  (exists w0,
     render ops calculateFinalDimensions this w
     = render_on ops calculateFinalDimensions this
         (List.filter truthy items) w0) /\
  exists r2 w3,
    sanitizedStack this1 w2 = (Returned r2, w3) /\
    arrays w3 !! r2 = Some (List.filter truthy items') /\
    arrays w1 !! r2 = None /\
    render ops calculateFinalDimensions this1 w2
    = render_on ops calculateFinalDimensions this1
        (List.filter truthy items') w3 /\
    let '(res2, this2, w4) := render ops calculateFinalDimensions this1 w2 in
    forall p, res2 = Async p ->
      exists rest,
        new_calls w2 w4 =
          (validate_call ops <$> operations_of (List.filter truthy items'))
          ++ rest /\
        Forall (fun e => is_validateSettings e = false) rest.
Proof.
  intros Hs. pose proof (render_frame this w) as Hr.
  destruct (render ops calculateFinalDimensions this w)
    as [[res1 this1] w1] eqn:E1.
  destruct Hr as ((ext & Ha) & Hst & _).
  split; [rewrite <- E1; eexists; by apply render_sanitized|].
  assert (Hs2 : arrays (caller_mutates (_stack this1) items' w1)
                  !! _stack this1 = Some items').
  { unfold caller_mutates. simpl. apply list_lookup_insert_eq.
    rewrite Hst, Ha, length_app. apply lookup_lt_Some in Hs. lia. }
  eexists _, _. split; [by apply sanitizedStack_spec|].
  split; [|split; [|split]].
  - simpl. by rewrite lookup_app_r, Nat.sub_diag by lia.
  - simpl. rewrite length_insert. by apply lookup_ge_None_2.
  - by apply render_sanitized.
  - rewrite (render_sanitized _ _ _ Hs2).
    destruct (render_on _ _ _ _ _) as [[res2 this2] w4] eqn:E2.
    intros p ->. apply render_on_validates in E2 as (rest & Hc & Hrest).
    exists rest. split; [|done]. by apply new_calls_app.
Qed.

(** ** The calls of a [render()] that gets past validation *)

(** The calls of the chain: either it stops in the render phase, having
    issued [render] calls only, or it reaches the finalize phase: every
    operation was rendered and has completed, [renderFinal] is called,
    and the rest follows from how [renderFinal] settles and from the
    comparison of the sizes. *)
Lemma chain_runs_calls (dimensions : string) (stack : list entry)
    (vps : list promise) (r r' : B) (w w' : World) (p : settlement) :
  chain_runs ops calculateFinalDimensions dimensions stack vps r w r' w' p ->
  (p <> Fulfilled /\
   exists rs, calls w' = calls w ++ rs /\
     Forall (fun e => is_render e = true) rs)
  \/
  (exists rs r2 c tail,
     calls w' = calls w ++ rs ++ CallRenderFinal c :: tail /\
     omap callee rs = operations_of stack /\
     Forall (fun e => is_render e = true /\ completed e = true) rs /\
     renderFinal (fst (fst (render_loop ops stack [] r w))) = (r2, c) /\
     let current := getSize r2 in
     let resolved := calculateFinalDimensions dimensions current in
     (adopt c <> Fulfilled /\ tail = [] /\ p = adopt c)
     \/
     (adopt c = Fulfilled /\ Vector2.equals resolved current = true /\
      tail = [CallGetSize current] /\ p = Fulfilled)
     \/
     (adopt c = Fulfilled /\ Vector2.equals resolved current = false /\
      tail = [CallGetSize current;
              CallResizeTo resolved (snd (resizeTo resolved r2))] /\
      p = adopt (snd (resizeTo resolved r2)))).
Proof.
  destruct 1 as [Hv|r1 w1 e Hv El|r1 w1 rps Hv El Hr|r1 w1 rps r2 c Hv El Hr Hf Ha
                 |r1 w1 rps r2 c Hv El Hr Hf Ha He
                 |r1 w1 rps r2 c r3 c' Hv El Hr Hf Ha He Hz].
  - left. split; [done|]. exists []. by rewrite app_nil_r.
  - left. split; [done|].
    destruct (render_loop_frame stack [] r w) as (_ & rs & Hc & Hrs).
    rewrite El in Hc. by exists rs.
  - left. split; [done|].
    destruct (render_loop_frame stack [] r w) as (_ & rs & Hc & Hrs).
    rewrite El in Hc. by exists rs.
  - right. destruct (render_loop_completed _ _ _ _ _ _ El Hr) as (rs & Hc & Ho & Hrs).
    exists rs, r2, c, []. rewrite El. simpl. rewrite Hc, <- app_assoc.
    repeat split; try done. by left.
  - right. destruct (render_loop_completed _ _ _ _ _ _ El Hr) as (rs & Hc & Ho & Hrs).
    exists rs, r2, c, [CallGetSize (getSize r2)]. rewrite El. simpl.
    rewrite Hc, <- !app_assoc. repeat split; try done. right. by left.
  - right. destruct (render_loop_completed _ _ _ _ _ _ El Hr) as (rs & Hc & Ho & Hrs).
    eexists rs, r2, c, [_; _]. rewrite El. simpl.
    rewrite Hc, <- !app_assoc. rewrite Hz. simpl. repeat split; try done.
    right. by right.
Qed.

(** [render()] on the sanitized stack [stack]: it throws out of the
    validation loop, or every operation is asked to validate and the
    chain runs. *)
Lemma render_on_cases (this : RenderImage B) (stack : list entry) (w : World) :
  let '(res, this', w') := render_on ops calculateFinalDimensions this stack w in
  (exists e evs, res = SyncThrow e /\ calls w' = calls w ++ evs /\
     Forall (fun e => is_validateSettings e = true) evs)
  \/
  (exists vps w1,
     calls w1 = calls w ++ (validate_call ops <$> operations_of stack) /\
     ((_renderer this = None /\ res <> Async Fulfilled /\ w' = w1)
      \/
      (exists k r r' p,
         _renderer this = Some (k, r) /\ res = Async p /\
         chain_runs ops calculateFinalDimensions (_dimensions this) stack vps
           r w1 r' w' p))).
Proof.
  unfold render_on.
  destruct (validate_loop_frame stack [] w) as (_ & evs & Hc & Hf).
  destruct (validate_loop ops stack [] w) as [w1 [e|vps]] eqn:El; simpl in Hc.
  - left. by exists e, evs.
  - destruct (validate_loop_inr _ _ _ _ _ El) as (_ & Hc' & _).
    destruct (_renderer this) as [[k r]|] eqn:Er.
    2:{ right. exists vps, w1. split; [done|]. left. split; [done|].
        split; [|done]. by destruct (Promise_all vps). }
    pose proof (render_chain_runs (_dimensions this) stack vps r w1) as Hch.
    destruct (render_chain _ _ _ _ _ _) as [[r' w'] p].
    right. exists vps, w1. split; [done|]. right. by exists k, r, r', p.
Qed.


Lemma filter_none (f : event -> bool) (evs : list event) :
  Forall (fun e => f e = false) evs -> List.filter f evs = [].
Proof. induction 1 as [|e evs He _ IH]; [done|]. simpl. by rewrite He. Qed.

Lemma validate_calls_are_validations (l : list OpId) :
  Forall (fun e => is_validateSettings e = true) (validate_call ops <$> l).
Proof. apply Forall_fmap, Forall_forall. by intros op _. Qed.

Lemma validate_loop_world (stack : list entry) (ps : list promise)
    (w w' : World) :
  snd (validate_loop ops stack ps w) = snd (validate_loop ops stack ps w').
Proof.
  revert ps w w'. induction stack as [|v stack IH]; intros ps w w'; simpl.
  - done.
  - destruct v; simpl; try done.
    destruct (Operation.validateSettings (ops op)); [done|]. apply IH.
Qed.

Lemma render_loop_world (stack : list entry) (ps : list promise) (r : B)
    (w w' : World) :
  fst (fst (render_loop ops stack ps r w))
    = fst (fst (render_loop ops stack ps r w')) /\
  snd (render_loop ops stack ps r w) = snd (render_loop ops stack ps r w').
Proof.
  revert ps r w w'. induction stack as [|v stack IH]; intros ps r w w'; simpl.
  - done.
  - destruct v; simpl; try done.
    destruct (Operation.render (ops op) r) as [r1 [e|p]]; [done|]. apply IH.
Qed.

(** [reaches_finalize] read off the loops as [render] runs them. *)
Lemma reaches_finalize_eq (stack : list entry) (r : B) (w w1 : World) :
  reaches_finalize ops stack r =
    match snd (validate_loop ops stack [] w) with
    | inl _ => false
    | inr vps =>
        match Promise_all vps with
        | Fulfilled =>
            match snd (render_loop ops stack [] r w1) with
            | inl _ => false
            | inr rps =>
                match Promise_all rps with Fulfilled => true | _ => false end
            end
        | _ => false
        end
    end.
Proof.
  unfold reaches_finalize.
  set (nowhere := {| arrays := []; calls := [] |}).
  rewrite (validate_loop_world stack [] w nowhere).
  destruct (render_loop_world stack [] r w1 nowhere) as (_ & ->).
  destruct (validate_loop ops stack [] nowhere) as [? [?|vps]]; simpl; [done|].
  destruct (Promise_all vps); try done.
  by destruct (render_loop ops stack [] r nowhere) as [? [?|rps]].
Qed.

(** The calls of one [render()], by whether it reaches the finalize
    phase: if it does, [renderFinal] is requested exactly once, after
    the validations and after every operation has been rendered and has
    completed; if it does not, [renderFinal] is not requested. *)
Lemma render_finalize_calls (this : RenderImage B) (w : World)
    (items : list entry) (k : RendererKind) (r : B) :
  arrays w !! _stack this = Some items ->
  _renderer this = Some (k, r) ->
  let '(res, this', w') := render ops calculateFinalDimensions this w in
  if reaches_finalize ops (List.filter truthy items) r then
    exists rs c tail,
      new_calls w w' =
        (validate_call ops <$> operations_of (List.filter truthy items))
        ++ rs ++ CallRenderFinal c :: tail /\
      omap callee rs = operations_of (List.filter truthy items) /\
      Forall (fun e => is_render e = true /\ completed e = true) rs /\
      Forall (fun e => is_renderFinal e = false /\ is_render e = false /\
                       is_validateSettings e = false) tail /\
      length (List.filter is_renderFinal (new_calls w w')) = 1
  else
    Forall (fun e => is_renderFinal e = false) (new_calls w w').
Proof.
  intros Hs Hren. rewrite (render_sanitized _ _ _ Hs).
  set (stack := List.filter truthy items).
  set (w0 := {| arrays := arrays w ++ [stack]; calls := calls w |}).
  unfold render_on.
  pose proof (validate_calls_are_validations (operations_of stack)) as Hval.
  destruct (validate_loop_frame stack [] w0) as (_ & evs & Hc0 & Hf0).
  destruct (validate_loop ops stack [] w0) as [w1 [e|vps]] eqn:El; simpl in Hc0.
  { rewrite (reaches_finalize_eq stack r w0 w0), El. simpl.
    rewrite (new_calls_app w w1 evs Hc0).
    weaken_calls Hf0. }
  destruct (validate_loop_inr _ _ _ _ _ El) as (_ & Hc1 & _).
  rewrite Hren.
  pose proof (render_chain_runs (_dimensions this) stack vps r w1) as Hch.
  destruct (render_chain _ _ _ _ _ _) as [[r' w'] p].
  rewrite (reaches_finalize_eq stack r w0 w1), El. simpl.
  assert (Hstop : forall rs, calls w' = calls w1 ++ rs ->
    Forall (fun e => is_render e = true) rs ->
    Forall (fun e => is_renderFinal e = false) (new_calls w w')).
  { intros rs Hc Hrs.
    assert (E : calls w' = calls w ++ (validate_call ops <$> operations_of stack)
                           ++ rs) by (rewrite Hc, Hc1, <- app_assoc; done).
    rewrite (new_calls_app w w' _ E). apply Forall_app. split.
    - weaken_calls Hval.
    - weaken_calls Hrs. }
  assert (Hreach : forall rs c tail,
    calls w' = calls w1 ++ rs ++ CallRenderFinal c :: tail ->
    omap callee rs = operations_of stack ->
    Forall (fun e => is_render e = true /\ completed e = true) rs ->
    Forall (fun e => is_renderFinal e = false /\ is_render e = false /\
                     is_validateSettings e = false) tail ->
    exists rs c tail,
      new_calls w w' =
        (validate_call ops <$> operations_of stack)
        ++ rs ++ CallRenderFinal c :: tail /\
      omap callee rs = operations_of stack /\
      Forall (fun e => is_render e = true /\ completed e = true) rs /\
      Forall (fun e => is_renderFinal e = false /\ is_render e = false /\
                       is_validateSettings e = false) tail /\
      length (List.filter is_renderFinal (new_calls w w')) = 1).
  { intros rs c tail Hc Ho Hrs Ht.
    assert (E : calls w' = calls w ++ (validate_call ops <$> operations_of stack)
                           ++ rs ++ CallRenderFinal c :: tail)
      by (rewrite Hc, Hc1, <- app_assoc; done).
    rewrite (new_calls_app w w' _ E).
    exists rs, c, tail. repeat split; try done.
    rewrite !List.filter_app. simpl.
    rewrite (filter_none is_renderFinal (validate_call ops <$> _)),
      (filter_none is_renderFinal rs), (filter_none is_renderFinal tail);
      [done|..].
    - eapply Forall_impl; [exact Ht|]. by intros e (? & _).
    - weaken_calls Hrs.
    - weaken_calls Hval. }
  destruct Hch as [Hv|r1 w2 e Hv Er|r1 w2 rps Hv Er Hr|r1 w2 rps r2 c Hv Er Hr Hf Ha
                   |r1 w2 rps r2 c Hv Er Hr Hf Ha He
                   |r1 w2 rps r2 c r3 c' Hv Er Hr Hf Ha He Hz].
  - assert (Hnot : match Promise_all vps with
                   | Fulfilled =>
                       match snd (render_loop ops stack [] r w1) with
                       | inl _ => false
                       | inr rps =>
                           match Promise_all rps with
                           | Fulfilled => true | _ => false end
                       end
                   | _ => false
                   end = false) by by destruct (Promise_all vps).
    rewrite Hnot. apply (Hstop []); [by rewrite app_nil_r | constructor].
  - rewrite Hv, Er. simpl.
    destruct (render_loop_frame stack [] r w1) as (_ & rs & Hc & Hrs).
    rewrite Er in Hc. by apply (Hstop rs).
  - rewrite Hv, Er. simpl.
    assert (Hnot : match Promise_all rps with
                   | Fulfilled => true | _ => false end = false)
      by by destruct (Promise_all rps).
    rewrite Hnot.
    destruct (render_loop_frame stack [] r w1) as (_ & rs & Hc & Hrs).
    rewrite Er in Hc. by apply (Hstop rs).
  - rewrite Hv, Er. simpl. rewrite Hr.
    destruct (render_loop_completed _ _ _ _ _ _ Er Hr) as (rs & Hc & Ho & Hrs).
    apply (Hreach rs c []); try done.
    simpl. by rewrite Hc, <- app_assoc.
  - rewrite Hv, Er. simpl. rewrite Hr.
    destruct (render_loop_completed _ _ _ _ _ _ Er Hr) as (rs & Hc & Ho & Hrs).
    apply (Hreach rs c [CallGetSize (getSize r2)]); try done.
    + simpl. by rewrite Hc, <- !app_assoc.
    + by repeat constructor.
  - rewrite Hv, Er. simpl. rewrite Hr.
    destruct (render_loop_completed _ _ _ _ _ _ Er Hr) as (rs & Hc & Ho & Hrs).
    apply (Hreach rs c
             [CallGetSize (getSize r2);
              CallResizeTo (calculateFinalDimensions (_dimensions this)
                              (getSize r2)) c']); try done.
    + simpl. by rewrite Hc, <- !app_assoc.
    + by repeat constructor.
Qed.

(** C5: a [render()] reaches the finalize phase exactly when
    [renderFinal()] is requested in it; an invocation that reaches it
    requests [renderFinal()] exactly once, after the [render] call of
    every operation of the sanitized stack, each of which has completed
    (its promise has fulfilled), and renders no operation afterwards;
    and over two [render()] calls on the same instance, the second
    issued once the first has run its course, each reaching the finalize
    phase, [renderFinal()] is requested twice: once by each call. *)
Theorem renderFinal_once_per_render (this : RenderImage B) (w : World)
    (items : list entry) (k : RendererKind) (r : B) :
  arrays w !! _stack this = Some items ->
  _renderer this = Some (k, r) ->
  let stack := List.filter truthy items in
  let '(res1, this1, w1) := render ops calculateFinalDimensions this w in
  let '(res2, this2, w2) := render ops calculateFinalDimensions this1 w1 in
  (reaches_finalize ops stack r = true <->
   Exists (fun e => is_renderFinal e = true) (new_calls w w1)) /\
  (reaches_finalize ops stack r = true ->
   exists rs c tail,
     new_calls w w1 =
       (validate_call ops <$> operations_of stack)
       ++ rs ++ CallRenderFinal c :: tail /\
     omap callee rs = operations_of stack /\
     Forall (fun e => is_render e = true /\ completed e = true) rs /\
     Forall (fun e => is_renderFinal e = false /\ is_render e = false /\
                      is_validateSettings e = false) tail /\
     length (List.filter is_renderFinal (new_calls w w1)) = 1) /\
  (forall k1 r1, _renderer this1 = Some (k1, r1) ->
   reaches_finalize ops stack r = true ->
   reaches_finalize ops stack r1 = true ->
   length (List.filter is_renderFinal (new_calls w1 w2)) = 1 /\
   length (List.filter is_renderFinal (new_calls w w2)) = 2).
Proof.
  intros Hs Hren stack.
  pose proof (render_finalize_calls this w items k r Hs Hren) as H1.
  pose proof (render_frame this w) as Hf1.
  destruct (render ops calculateFinalDimensions this w) as [[res1 this1] w1].
  destruct Hf1 as ((ext & Ha) & Hst & _ & _ & evs1 & Hc1 & _).
  assert (Hs1 : arrays w1 !! _stack this1 = Some items).
  { rewrite Ha, Hst. by apply lookup_app_l_Some. }
  pose proof (fun k1 r1 => render_finalize_calls this1 w1 items k1 r1 Hs1) as H2.
  pose proof (render_frame this1 w1) as Hf2.
  destruct (render ops calculateFinalDimensions this1 w1) as [[res2 this2] w2].
  destruct Hf2 as (_ & _ & _ & _ & evs2 & Hc2 & _).
  fold stack in H1, H2.
  split; [|split].
  - destruct (reaches_finalize ops stack r).
    + destruct H1 as (rs & c & tail & -> & _). split; [intros _|done].
      apply Exists_app. right. apply Exists_app. right. by left.
    + split; [done|]. intros Hex. apply Exists_exists in Hex as (e & Hin & He).
      rewrite Forall_forall in H1. specialize (H1 e Hin). congruence.
  - intros Hr. by rewrite Hr in H1.
  - intros k1 r1 Hren1 Hr Hr1. specialize (H2 k1 r1 Hren1).
    rewrite Hr in H1. rewrite Hr1 in H2.
    destruct H1 as (_ & _ & _ & _ & _ & _ & _ & N1).
    destruct H2 as (_ & _ & _ & _ & _ & _ & _ & N2).
    split; [done|].
    assert (E : calls w2 = calls w ++ evs1 ++ evs2)
      by (rewrite Hc2, Hc1, <- app_assoc; done).
    rewrite (new_calls_app _ _ _ Hc1) in N1.
    rewrite (new_calls_app _ _ _ Hc2) in N2.
    rewrite (new_calls_app _ _ _ E), List.filter_app, length_app. lia.
Qed.

(** C3: in a successful [render()], after [renderFinal()] the size the
    renderer reports is read once and the final size is computed from it
    and from the stored dimensions; when the final size equals the
    reported one ([equals], which holds exactly when the two sizes are
    the same) no [resizeTo] call is made, and when it differs the one
    [resizeTo] call of the invocation is made with the final size. *)
Theorem resize_only_when_size_differs (this this' : RenderImage B)
    (w w' : World) :
  render ops calculateFinalDimensions this w = (Async Fulfilled, this', w') ->
  exists before c current resizes,
    let resolved := calculateFinalDimensions (_dimensions this) current in
    new_calls w w' =
      before ++ CallRenderFinal c :: CallGetSize current :: resizes /\
    Forall (fun e => is_renderFinal e = false /\ is_getSize e = false /\
                     is_resizeTo e = false) before /\
    List.filter is_resizeTo (new_calls w w') = resizes /\
    (Vector2.equals resolved current = true <-> resolved = current) /\
    if Vector2.equals resolved current then resizes = []
    else exists c', resizes = [CallResizeTo resolved c'] /\
                    adopt c' = Fulfilled.
Proof.
  unfold render.
  destruct (sanitizedStack_frame this w) as (Hc0 & _).
  destruct (sanitizedStack this w) as [[e|sref] w0]; [discriminate|].
  simpl in Hc0. set (stack := default [] (arrays w0 !! sref)).
  pose proof (render_on_cases this stack w0) as Hcases.
  destruct (render_on _ _ _ _ _) as [[res this1] w1].
  intros [= -> -> ->].
  destruct Hcases as [(e & evs & ? & _)|(vps & w1 & Hc1 & Hcases)];
    [discriminate|].
  destruct Hcases as [(_ & ? & _)|(k & r & r' & p & _ & [= <-] & Hch)]; [done|].
  apply chain_runs_calls in Hch
    as [(? & _)|(rs & r2 & c & tail & Hc & _ & Hrs & _ & Htail)]; [done|].
  set (current := getSize r2) in *.
  set (before := (validate_call ops <$> operations_of stack) ++ rs).
  assert (Hb : Forall (fun e => is_renderFinal e = false /\ is_getSize e = false
                         /\ is_resizeTo e = false) before).
  { apply Forall_app. split.
    - eapply Forall_impl; [apply validate_calls_are_validations|].
      by intros [] ?.
    - weaken_calls Hrs. }
  assert (Hfb : List.filter is_resizeTo before = []).
  { apply filter_none. eapply Forall_impl; [exact Hb|]. by intros e (_ & _ & ?). }
  assert (E : calls w' = calls w ++ before ++ CallRenderFinal c :: tail).
  { unfold before. rewrite Hc, Hc1, Hc0, <- !app_assoc. done. }
  rewrite (new_calls_app _ _ _ E). cbv zeta in Htail.
  destruct Htail as [(Hn & _ & Hp)|[(_ & Heq & -> & _)|(_ & Hne & -> & Hp)]].
  - congruence.
  - exists before, c, current, []. cbv zeta. rewrite Heq.
    rewrite List.filter_app, Hfb. simpl.
    split; [done|]. split; [done|]. split; [done|]. split; [|done].
    by rewrite <- equals_eq, Heq.
  - eexists before, c, current, [_]. cbv zeta. rewrite Hne.
    rewrite List.filter_app, Hfb. simpl.
    split; [done|]. split; [done|]. split; [done|]. split.
    + by rewrite <- equals_eq, Hne.
    + by eexists.
Qed.

Lemma filter_truthy_falsy (items : list entry) :
  Forall (fun v => truthy v = false) items -> List.filter truthy items = [].
Proof. induction 1 as [|v items Hv _ IH]; [done|]. simpl. by rewrite Hv. Qed.

(** C10 (amended): for a stack that is empty or holds only falsy
    entries, [render()] on an instance with a renderer issues no
    [validateSettings] and no [render] call and always requests
    [renderFinal()].  When [renderFinal()] fulfils, the size is read, the
    final size computed, the resize made only when the sizes differ, and
    [render()] resolves when no resize is needed or the resize fulfils.
    When [renderFinal()] does not fulfil, nothing further is called and
    [render()] settles as [renderFinal()] did. *)
Theorem falsy_stack_still_finalizes (this : RenderImage B) (w : World)
    (items : list entry) (k : RendererKind) (r : B) :
  arrays w !! _stack this = Some items ->
  Forall (fun v => truthy v = false) items ->
  _renderer this = Some (k, r) ->
  let '(res, this', w') := render ops calculateFinalDimensions this w in
  let '(r2, c) := renderFinal r in
  let current := getSize r2 in
  let resolved := calculateFinalDimensions (_dimensions this) current in
  Forall (fun e => is_validateSettings e = false /\ is_render e = false)
    (new_calls w w') /\
  match adopt c with
  | Fulfilled =>
      if Vector2.equals resolved current then
        new_calls w w' = [CallRenderFinal c; CallGetSize current] /\
        res = Async Fulfilled
      else
        new_calls w w' =
          [CallRenderFinal c; CallGetSize current;
           CallResizeTo resolved (snd (resizeTo resolved r2))] /\
        res = Async (adopt (snd (resizeTo resolved r2)))
  | failure => new_calls w w' = [CallRenderFinal c] /\ res = Async failure
  end.
Proof.
  intros Hs Hfalsy Hr. rewrite (render_sanitized _ _ _ Hs).
  rewrite (filter_truthy_falsy _ Hfalsy).
  unfold render_on. simpl. rewrite Hr.
  unfold render_chain, finalize_phase, resize_phase. simpl.
  destruct (renderFinal r) as [r2 c]. simpl.
  destruct (adopt c) eqn:Ea; simpl.
  - destruct (Vector2.equals _ _) eqn:Eq; simpl.
    + unfold new_calls. simpl. rewrite <- app_assoc, drop_app_length. simpl.
      split; [by repeat constructor | done].
    + destruct (resizeTo _ r2) as [r3 c'] eqn:Ez. simpl.
      unfold new_calls. simpl. rewrite <- !app_assoc, drop_app_length. simpl.
      split; [by repeat constructor | done].
  - unfold new_calls. simpl. rewrite drop_app_length.
    split; [by repeat constructor | done].
  - unfold new_calls. simpl. rewrite drop_app_length.
    split; [by repeat constructor | done].
Qed.

End Proofs.

(** * Further properties of the protocol *)

Section Protocol.
Context {B : Type} `{Renderer B}.
Variable ops : OpId -> Operation.t B.
Variable calculateFinalDimensions : string -> Vector2.t -> Vector2.t.

(** ** The calls of a run do not depend on the world it runs in *)

Lemma extend_log (w : World) (evs : list event) (e : event) :
  log e (extend w evs) = extend w (evs ++ [e]).
Proof. unfold log, extend. simpl. by rewrite app_assoc. Qed.

Lemma extend_nil (w : World) : extend w [] = w.
Proof. unfold extend. rewrite app_nil_r. by destruct w. Qed.

Lemma extend_extend (w : World) (evs evs' : list event) :
  extend (extend w evs) evs' = extend w (evs ++ evs').
Proof. unfold extend. simpl. by rewrite app_assoc. Qed.

Lemma new_calls_extend (w w0 : World) (evs : list event) :
  calls w0 = calls w -> new_calls w (extend w0 evs) = evs.
Proof. intros E. apply new_calls_app. simpl. by rewrite E. Qed.

Lemma validate_loop_extend (stack : list entry) (ps : list promise)
    (w : World) (evs : list event) :
  validate_loop ops stack ps (extend w evs) =
    (extend w (calls (fst (validate_loop ops stack ps (extend empty_world evs)))),
     snd (validate_loop ops stack ps (extend empty_world evs))).
Proof.
  revert ps evs. induction stack as [|v stack IH]; intros ps evs; simpl.
  - done.
  - destruct v; simpl; try done.
    destruct (Operation.validateSettings (ops op)) as [e|p]; simpl.
    + by rewrite !extend_log.
    + by rewrite !extend_log, IH.
Qed.

Lemma render_loop_extend (stack : list entry) (ps : list promise) (r : B)
    (w : World) (evs : list event) :
  render_loop ops stack ps r (extend w evs) =
    ((fst (fst (render_loop ops stack ps r (extend empty_world evs))),
      extend w
        (calls (snd (fst (render_loop ops stack ps r (extend empty_world evs)))))),
     snd (render_loop ops stack ps r (extend empty_world evs))).
Proof.
  revert ps r evs. induction stack as [|v stack IH]; intros ps r evs; simpl.
  - done.
  - destruct v; simpl; try done.
    destruct (Operation.render (ops op) r) as [r1 [e|p]]; simpl.
    + by rewrite !extend_log.
    + by rewrite !extend_log, IH.
Qed.

Lemma render_chain_extend (dimensions : string) (stack : list entry)
    (vps : list promise) (r : B) (w : World) (evs : list event) :
  render_chain ops calculateFinalDimensions dimensions stack vps
    (r, extend w evs) =
  let '((r', w0), p) :=
    render_chain ops calculateFinalDimensions dimensions stack vps
      (r, extend empty_world evs) in
  ((r', extend w (calls w0)), p).
Proof.
  unfold render_chain, then_ at 3 6.
  destruct (Promise_all vps); simpl; try done.
  unfold render_phase. rewrite (render_loop_extend stack [] r w evs).
  destruct (render_loop ops stack [] r (extend empty_world evs))
    as [[r1 w0] [e|rps]] eqn:El; simpl; try done.
  destruct (Promise_all rps); simpl; try done.
  unfold finalize_phase. destruct (renderFinal r1) as [r2 c].
  rewrite extend_log.
  destruct (adopt c); simpl; try done.
  unfold resize_phase.
  destruct (Vector2.equals _ _); simpl.
  { by rewrite !extend_log, <- app_assoc. }
  destruct (resizeTo _ r2) as [r3 c']. simpl.
  by rewrite !extend_log, <- !app_assoc.
Qed.

(** [render()] on a stack logs the same calls and ends the same way in
    whatever world it runs. *)
Lemma render_on_extend (this : RenderImage B) (stack : list entry)
    (w : World) :
  render_on ops calculateFinalDimensions this stack w =
  let '(res, this', w0) :=
    render_on ops calculateFinalDimensions this stack empty_world in
  (res, this', extend w (calls w0)).
Proof.
  unfold render_on.
  rewrite <- (extend_nil w) at 1. rewrite validate_loop_extend.
  change (extend empty_world []) with empty_world.
  destruct (validate_loop ops stack [] empty_world) as [w0 [e|vps]] eqn:El;
    simpl; [done|].
  assert (E0 : w0 = extend empty_world (calls w0)).
  { destruct (validate_loop_frame ops stack [] empty_world) as (Ha & _).
    rewrite El in Ha. simpl in Ha. destruct w0 as [a0 c0]. simpl in Ha.
    subst a0. done. }
  destruct (_renderer this) as [[k r]|].
  - rewrite render_chain_extend. rewrite E0 at 2.
    destruct (render_chain _ _ _ _ _ _) as [[r' w1] p]. done.
  - by destruct (Promise_all vps).
Qed.

(** ** The loops, call by call *)

(** The validation loop over operations asks them in order: all of
    them, or up to the first one that throws. *)
Lemma validate_loop_log (stack : list entry) (ps : list promise)
    (w w' : World) (res : Error + list promise) :
  Forall (fun v => truthy v = true) stack ->
  validate_loop ops stack ps w = (w', res) ->
  exists asked,
    calls w' = calls w ++ (validate_call ops <$> asked) /\
    asked `prefix_of` operations_of stack /\
    match res with
    | inr _ => asked = operations_of stack
    | inl e =>
        exists pre op,
          asked = pre ++ [op] /\
          Operation.validateSettings (ops op) = Throws e
    end.
Proof.
  intros Hall. revert ps w.
  induction Hall as [|v stack Hv _ IH]; intros ps w; simpl.
  - intros [= <- <-]. exists []. rewrite app_nil_r. done.
  - destruct v; try discriminate. unfold operations_of in *. simpl.
    destruct (Operation.validateSettings (ops op)) as [e|p] eqn:Ec.
    + intros [= <- <-]. exists [op]. simpl. unfold validate_call at 1.
      rewrite Ec. split; [done|]. split; [by apply prefix_cons, prefix_nil|].
      by exists [], op.
    + intros E. destruct (IH _ _ E) as (asked & Hc & Hp & Hres).
      exists (op :: asked). simpl. unfold validate_call at 1. rewrite Ec.
      rewrite Hc. simpl. rewrite <- app_assoc. split; [done|].
      split; [by apply prefix_cons|].
      destruct res as [e|ps']; [|by f_equal].
      destruct Hres as (pre & op' & -> & Hop'). by exists (op :: pre), op'.
Qed.

(** The render loop over operations calls them in order: all of them,
    or up to the first one that throws, whose call is the last one. *)
Lemma render_loop_log (stack : list entry) (ps : list promise) (r r' : B)
    (w w' : World) (res : Error + list promise) :
  Forall (fun v => truthy v = true) stack ->
  render_loop ops stack ps r w = ((r', w'), res) ->
  exists rs,
    calls w' = calls w ++ rs /\
    Forall (fun e => is_render e = true) rs /\
    omap callee rs `prefix_of` operations_of stack /\
    match res with
    | inr _ => omap callee rs = operations_of stack
    | inl e => exists rs0 op, rs = rs0 ++ [CallRender op (Throws e)]
    end.
Proof.
  intros Hall. revert ps r w.
  induction Hall as [|v stack Hv _ IH]; intros ps r w; simpl.
  - intros [= <- <- <-]. exists []. rewrite app_nil_r. done.
  - destruct v; try discriminate. unfold operations_of in *. simpl.
    destruct (Operation.render (ops op) r) as [r1 [e|p]] eqn:Ec.
    + intros [= <- <- <-]. exists [CallRender op (Throws e)]. simpl.
      split; [done|]. split; [by repeat constructor|].
      split; [by apply prefix_cons, prefix_nil|]. by exists [], op.
    + intros E. destruct (IH _ _ _ E) as (rs & Hc & Hr & Hp & Hres).
      exists (CallRender op (Returns p) :: rs). simpl.
      rewrite Hc. simpl. rewrite <- app_assoc. split; [done|].
      split; [by constructor|]. split; [by apply prefix_cons|].
      destruct res as [e|ps']; [|by f_equal].
      destruct Hres as (rs0 & op' & ->).
      by exists (CallRender op (Returns p) :: rs0), op'.
Qed.

(** Fulfilled validation promises, read on the calls logged. *)
Lemma validations_completed (l : list OpId) (vps : list promise) :
  Returns <$> vps = (fun op => Operation.validateSettings (ops op)) <$> l ->
  Forall (fun p => is_fulfilled p = true) vps ->
  Forall (fun e => completed e = true) (validate_call ops <$> l).
Proof.
  revert vps. induction l as [|op l IH]; intros vps Hv Hf; simpl.
  - constructor.
  - destruct vps as [|p vps]; [discriminate|]. simpl in Hv.
    injection Hv as Hp Hv. inversion Hf; subst. constructor.
    + unfold validate_call. by rewrite <- Hp.
    + by eapply IH.
Qed.

(** ** The shape of the calls of one [render()] *)

(** The calls of a [render()] are validations, then renders, then the
    calls of the finalize and resize phases; an operation is called at
    most once in each phase, in stack order; the render phase starts
    only when every validation has fulfilled, and the finalize phase
    only when every render has. *)
Lemma calls_in_validation (l asked : list OpId) :
  asked `prefix_of` l ->
  calls_in_phases ops l (validate_call ops <$> asked).
Proof.
  intros Hp. exists asked, [], []. rewrite app_nil_r. split_and!.
  - done.
  - done.
  - constructor.
  - apply prefix_nil.
  - constructor.
  - by intros [?|?].
  - intros Hne. by destruct Hne.
Qed.

Lemma calls_past_validation (l : list OpId) (vps : list promise)
    (rs fs : list event) :
  Returns <$> vps = (fun op => Operation.validateSettings (ops op)) <$> l ->
  Promise_all vps = Fulfilled ->
  Forall (fun e => is_render e = true) rs ->
  omap callee rs `prefix_of` l ->
  finalize_calls fs ->
  (fs <> [] ->
   omap callee rs = l /\ Forall (fun e => completed e = true) rs) ->
  calls_in_phases ops l ((validate_call ops <$> l) ++ rs ++ fs).
Proof.
  intros Hvps Hv Hrs Hp Hfs Hfin. exists l, rs, fs.
  split_and!; try done.
  intros _. split; [done|].
  eapply validations_completed; [exact Hvps|]. by apply Promise_all_fulfilled.
Qed.

Lemma render_log_shape (this : RenderImage B) (w : World)
    (items : list entry) :
  arrays w !! _stack this = Some items ->
  let '(res, this', w') := render ops calculateFinalDimensions this w in
  calls_in_phases ops (operations_of (List.filter truthy items))
    (new_calls w w').
Proof.
  intros Hs. rewrite (render_sanitized _ _ _ _ _ Hs).
  set (stack := List.filter truthy items).
  set (w0 := {| arrays := arrays w ++ [stack]; calls := calls w |}).
  assert (Hall : Forall (fun v => truthy v = true) stack)
    by apply filter_truthy_all.
  unfold render_on.
  destruct (validate_loop ops stack [] w0) as [w1 [e|vps]] eqn:El.
  { destruct (validate_loop_log _ _ _ _ _ Hall El) as (asked & Hc & Hp & _).
    rewrite (new_calls_app w w1 _ Hc). by apply calls_in_validation. }
  destruct (validate_loop_log _ _ _ _ _ Hall El) as (asked & Hc1 & _ & ->).
  destruct (validate_loop_inr _ _ _ _ _ _ El) as (_ & _ & Hvps).
  simpl in Hvps.
  assert (Hstop : forall w', calls w' = calls w1 ->
    calls_in_phases ops (operations_of stack) (new_calls w w')).
  { intros w' Hc.
    assert (E : calls w' = calls w ++ (validate_call ops <$> operations_of stack))
      by (rewrite Hc, Hc1; done).
    rewrite (new_calls_app w w' _ E). by apply calls_in_validation. }
  destruct (_renderer this) as [[k r]|]; [|by apply Hstop].
  pose proof (render_chain_runs ops calculateFinalDimensions
                (_dimensions this) stack vps r w1) as Hch.
  destruct (render_chain _ _ _ _ _ _) as [[r' w'] p].
  assert (Hgo : Promise_all vps = Fulfilled ->
    forall rs fs, calls w' = calls w1 ++ rs ++ fs ->
    Forall (fun e => is_render e = true) rs ->
    omap callee rs `prefix_of` operations_of stack ->
    finalize_calls fs ->
    (fs <> [] ->
     omap callee rs = operations_of stack /\
     Forall (fun e => completed e = true) rs) ->
    calls_in_phases ops (operations_of stack) (new_calls w w')).
  { intros Hv rs fs Hc Hrs Hp Hfs Hfin.
    assert (E : calls w' = calls w ++ (validate_call ops <$> operations_of stack)
                           ++ rs ++ fs)
      by (rewrite Hc, Hc1, <- app_assoc; done).
    rewrite (new_calls_app w w' _ E). by eapply calls_past_validation. }
  destruct Hch as [Hv|r1 w2 e Hv Er|r1 w2 rps Hv Er Hr|r1 w2 rps r2 c Hv Er Hr Hf Ha
                   |r1 w2 rps r2 c Hv Er Hr Hf Ha He
                   |r1 w2 rps r2 c r3 c' Hv Er Hr Hf Ha He Hz].
  - by apply Hstop.
  - destruct (render_loop_log _ _ _ _ _ _ _ Hall Er) as (rs & Hc & Hrs & Hp & _).
    apply (Hgo Hv rs []); try done; try constructor.
    by rewrite app_nil_r.
  - destruct (render_loop_log _ _ _ _ _ _ _ Hall Er) as (rs & Hc & Hrs & Hp & _).
    apply (Hgo Hv rs []); try done; try constructor.
    by rewrite app_nil_r.
  - destruct (render_loop_completed _ _ _ _ _ _ _ Er Hr) as (rs & Hc & Ho & Hrs).
    apply (Hgo Hv rs [CallRenderFinal c]).
    + simpl. by rewrite Hc, <- app_assoc.
    + weaken_calls Hrs.
    + by rewrite Ho.
    + by constructor.
    + intros _. split; [done|]. weaken_calls Hrs.
  - destruct (render_loop_completed _ _ _ _ _ _ _ Er Hr) as (rs & Hc & Ho & Hrs).
    apply (Hgo Hv rs [CallRenderFinal c; CallGetSize (getSize r2)]).
    + simpl. by rewrite Hc, <- !app_assoc.
    + weaken_calls Hrs.
    + by rewrite Ho.
    + by constructor.
    + intros _. split; [done|]. weaken_calls Hrs.
  - destruct (render_loop_completed _ _ _ _ _ _ _ Er Hr) as (rs & Hc & Ho & Hrs).
    apply (Hgo Hv rs
             [CallRenderFinal c; CallGetSize (getSize r2);
              CallResizeTo (calculateFinalDimensions (_dimensions this)
                              (getSize r2)) c']).
    + simpl. by rewrite Hc, <- !app_assoc.
    + weaken_calls Hrs.
    + by rewrite Ho.
    + constructor; [done|]. intros Heq. apply equals_eq in Heq. congruence.
    + intros _. split; [done|]. weaken_calls Hrs.
Qed.

(** ** Reading kinds of calls off a log in phase order *)

Lemma callee_validate_calls (l : list OpId) :
  omap callee (validate_call ops <$> l) = l.
Proof. induction l as [|op l IH]; [done|]. simpl. by f_equal. Qed.

Lemma filter_all (f : event -> bool) (evs : list event) :
  Forall (fun e => f e = true) evs -> List.filter f evs = evs.
Proof. induction 1 as [|e evs He _ IH]; [done|]. simpl. by rewrite He, IH. Qed.

Lemma finalize_calls_kinds (fs : list event) :
  finalize_calls fs ->
  Forall (fun e => is_validateSettings e = false /\ is_render e = false) fs.
Proof. destruct 1; by repeat constructor. Qed.

Lemma is_render_not_validate (rs : list event) :
  Forall (fun e => is_render e = true) rs ->
  Forall (fun e => is_validateSettings e = false) rs.
Proof. intros Hrs. weaken_calls Hrs. Qed.

(** The validations of a log in phase order. *)
Lemma phases_validations (asked : list OpId) (rs fs : list event) :
  Forall (fun e => is_render e = true) rs ->
  finalize_calls fs ->
  List.filter is_validateSettings ((validate_call ops <$> asked) ++ rs ++ fs)
  = validate_call ops <$> asked.
Proof.
  intros Hrs Hfs. rewrite !List.filter_app.
  rewrite (filter_all is_validateSettings (validate_call ops <$> asked))
    by apply validate_calls_are_validations.
  rewrite (filter_none is_validateSettings rs)
    by by apply is_render_not_validate.
  rewrite (filter_none is_validateSettings fs).
  - by rewrite !app_nil_r.
  - apply finalize_calls_kinds in Hfs.
    eapply Forall_impl; [exact Hfs|]. by intros e (? & _).
Qed.

(** The renders of a log in phase order. *)
Lemma phases_renders (asked : list OpId) (rs fs : list event) :
  Forall (fun e => is_render e = true) rs ->
  finalize_calls fs ->
  List.filter is_render ((validate_call ops <$> asked) ++ rs ++ fs) = rs.
Proof.
  intros Hrs Hfs. rewrite !List.filter_app.
  rewrite (filter_none is_render (validate_call ops <$> asked)).
  2:{ pose proof (validate_calls_are_validations ops asked) as Hv.
      weaken_calls Hv. }
  rewrite (filter_all is_render rs) by done.
  rewrite (filter_none is_render fs).
  - by rewrite !app_nil_r.
  - apply finalize_calls_kinds in Hfs.
    eapply Forall_impl; [exact Hfs|]. by intros e (_ & ?).
Qed.

(** The calls of the last two phases of a log in phase order. *)
Lemma phases_finals (f : event -> bool) (asked : list OpId)
    (rs fs : list event) :
  (forall e, is_validateSettings e = true -> f e = false) ->
  (forall e, is_render e = true -> f e = false) ->
  Forall (fun e => is_render e = true) rs ->
  List.filter f ((validate_call ops <$> asked) ++ rs ++ fs) = List.filter f fs.
Proof.
  intros Hfv Hfr Hrs. rewrite !List.filter_app.
  rewrite (filter_none f (validate_call ops <$> asked)).
  2:{ pose proof (validate_calls_are_validations ops asked) as Hv.
      eapply Forall_impl; [exact Hv|]. intros e. apply Hfv. }
  rewrite (filter_none f rs); [done|].
  eapply Forall_impl; [exact Hrs|]. intros e. apply Hfr.
Qed.

(** X1: the calls of a [render()] come in the order of its phases:
    [validateSettings] calls, then [render] calls, then the calls of the
    finalize and resize phases ([renderFinal]; then [getSize] if it
    fulfilled; then [resizeTo] with a size other than the one read).
    Within the validations and within the renders, the operations
    called are an initial part of the sanitized stack, in stack order,
    so that no operation is validated twice or rendered twice. *)
Theorem render_calls_follow_phases (this : RenderImage B) (w : World)
    (items : list entry) :
  arrays w !! _stack this = Some items ->
  let '(res, this', w') := render ops calculateFinalDimensions this w in
  exists vs rs fs,
    new_calls w w' = vs ++ rs ++ fs /\
    Forall (fun e => is_validateSettings e = true) vs /\
    Forall (fun e => is_render e = true) rs /\
    finalize_calls fs /\
    omap callee vs `prefix_of` operations_of (List.filter truthy items) /\
    omap callee rs `prefix_of` operations_of (List.filter truthy items).
Proof.
  intros Hs. pose proof (render_log_shape this w items Hs) as Hshape.
  destruct (render ops calculateFinalDimensions this w) as [[res this'] w'].
  destruct Hshape as (asked & rs & fs & E & Hp & Hrs & Hpr & Hfs & _).
  exists (validate_call ops <$> asked), rs, fs. split_and!; try done.
  - apply validate_calls_are_validations.
  - by rewrite callee_validate_calls.
Qed.

(** X2: no operation is rendered before the whole stack has validated:
    if a [render()] issues any [render] call, then it has asked every
    operation of the sanitized stack to validate, once each and in
    stack order, and every one of these validations has fulfilled. *)
Theorem render_needs_all_validations (this : RenderImage B) (w : World)
    (items : list entry) :
  arrays w !! _stack this = Some items ->
  let '(res, this', w') := render ops calculateFinalDimensions this w in
  Exists (fun e => is_render e = true) (new_calls w w') ->
  List.filter is_validateSettings (new_calls w w')
    = validate_call ops <$> operations_of (List.filter truthy items) /\
  Forall (fun e => completed e = true)
    (List.filter is_validateSettings (new_calls w w')).
Proof.
  intros Hs. pose proof (render_log_shape this w items Hs) as Hshape.
  destruct (render ops calculateFinalDimensions this w) as [[res this'] w'].
  destruct Hshape as (asked & rs & fs & E & Hp & Hrs & Hpr & Hfs & Hgate & _).
  intros Hex. rewrite E in *. rewrite (phases_validations _ _ _ Hrs Hfs).
  assert (Hne : rs <> []).
  { intros ->. apply Exists_exists in Hex as (e & Hin & He).
    simpl in Hin. apply elem_of_app in Hin as [Hin|Hin].
    - pose proof (validate_calls_are_validations ops asked) as Hv.
      rewrite Forall_forall in Hv. specialize (Hv e Hin). by destruct e.
    - apply finalize_calls_kinds in Hfs. rewrite Forall_forall in Hfs.
      destruct (Hfs e Hin) as (_ & ?). congruence. }
  destruct (Hgate (or_introl Hne)) as (-> & Hc). done.
Qed.

Lemma validate_loop_throw (pre post : list OpId) (op : OpId) (e : Error)
    (ps : list promise) (w : World) :
  Forall (fun o => exists p, Operation.validateSettings (ops o) = Returns p)
    pre ->
  Operation.validateSettings (ops op) = Throws e ->
  validate_loop ops (JOperation <$> (pre ++ op :: post)) ps w
  = (extend w (validate_call ops <$> (pre ++ [op])), inl e).
Proof.
  intros Hpre Hop. revert ps w.
  induction Hpre as [|o pre (p & Ho) _ IH]; intros ps w; simpl.
  - rewrite Hop. unfold validate_call. by rewrite Hop.
  - rewrite Ho, IH. unfold validate_call at 2. rewrite Ho.
    unfold extend, log. simpl. by rewrite <- app_assoc.
Qed.

(** X3: a [validateSettings()] that throws ends [render()] on the spot:
    when the first operation of the sanitized stack whose validation
    throws is [op], [render()] throws that error synchronously, having
    asked the operations up to [op] and none of the later ones, and
    leaves the instance as it was. *)
Theorem validation_throw_ends_render (this : RenderImage B) (w : World)
    (items : list entry) (pre post : list OpId) (op : OpId) (e : Error) :
  arrays w !! _stack this = Some items ->
  List.filter truthy items = JOperation <$> (pre ++ op :: post) ->
  Forall (fun o => exists p, Operation.validateSettings (ops o) = Returns p)
    pre ->
  Operation.validateSettings (ops op) = Throws e ->
  let '(res, this', w') := render ops calculateFinalDimensions this w in
  res = SyncThrow e /\ this' = this /\
  new_calls w w' = validate_call ops <$> (pre ++ [op]).
Proof.
  intros Hs Hstack Hpre Hop. rewrite (render_sanitized _ _ _ _ _ Hs).
  unfold render_on. rewrite Hstack.
  rewrite (validate_loop_throw pre post op e [] _ Hpre Hop).
  split_and!; try done. by apply new_calls_extend.
Qed.

(** A [render()] that resolves has requested [renderFinal] and read the
    size. *)
Lemma resolved_reads_size (this this' : RenderImage B) (w w' : World) :
  render ops calculateFinalDimensions this w = (Async Fulfilled, this', w') ->
  Exists (fun e => is_getSize e = true) (new_calls w w').
Proof.
  unfold render.
  destruct (sanitizedStack_frame this w) as (Hc0 & _).
  destruct (sanitizedStack this w) as [[e|sref] w0]; [discriminate|].
  simpl in Hc0. set (stack := default [] (arrays w0 !! sref)).
  pose proof (render_on_cases ops calculateFinalDimensions this stack w0)
    as Hcases.
  destruct (render_on _ _ _ _ _) as [[res this1] w1].
  intros [= -> -> ->].
  destruct Hcases as [(e & evs & ? & _)|(vps & w1 & Hc1 & Hcases)];
    [discriminate|].
  destruct Hcases as [(_ & ? & _)|(k & r & r' & p & _ & [= <-] & Hch)]; [done|].
  apply chain_runs_calls in Hch
    as [(? & _)|(rs & r2 & c & tail & Hc & _ & _ & _ & Htail)]; [done|].
  assert (E : calls w' = calls w ++ ((validate_call ops <$> operations_of stack)
                ++ rs ++ [CallRenderFinal c]) ++ tail).
  { rewrite Hc, Hc1, Hc0, <- !app_assoc. done. }
  rewrite (new_calls_app _ _ _ E). apply Exists_app. right.
  cbv zeta in Htail.
  destruct Htail as [(Hn & _ & Hp)|[(_ & _ & -> & _)|(_ & _ & -> & _)]].
  - congruence.
  - by left.
  - by left.
Qed.

(** X7: a [render()] that resolves has run the whole protocol: every
    operation of the sanitized stack was asked to validate and then to
    render, once each and in stack order, every one of these calls has
    completed, and [renderFinal] and [getSize] were called once each. *)
Theorem resolved_render_ran_every_operation (this this' : RenderImage B)
    (w w' : World) (items : list entry) :
  arrays w !! _stack this = Some items ->
  render ops calculateFinalDimensions this w = (Async Fulfilled, this', w') ->
  let l := operations_of (List.filter truthy items) in
  List.filter is_validateSettings (new_calls w w') = validate_call ops <$> l /\
  omap callee (List.filter is_render (new_calls w w')) = l /\
  Forall (fun e => completed e = true)
    (List.filter is_validateSettings (new_calls w w')) /\
  Forall (fun e => completed e = true)
    (List.filter is_render (new_calls w w')) /\
  length (List.filter is_renderFinal (new_calls w w')) = 1 /\
  length (List.filter is_getSize (new_calls w w')) = 1.
Proof.
  intros Hs Hr. pose proof (render_log_shape this w items Hs) as Hshape.
  pose proof (resolved_reads_size _ _ _ _ Hr) as Hex.
  rewrite Hr in Hshape.
  destruct Hshape as (asked & rs & fs & E & Hp & Hrs & Hpr & Hfs & Hgate & Hfin).
  rewrite E in *.
  assert (Hsize : Exists (fun e => is_getSize e = true) fs).
  { apply Exists_exists in Hex as (e & Hin & He).
    apply Exists_exists. exists e. split; [|done].
    apply elem_of_app in Hin as [Hin|Hin].
    { pose proof (validate_calls_are_validations ops asked) as Hv.
      rewrite Forall_forall in Hv. specialize (Hv e Hin). by destruct e. }
    apply elem_of_app in Hin as [Hin|Hin]; [|done].
    rewrite Forall_forall in Hrs. specialize (Hrs e Hin). by destruct e. }
  assert (Hcases : exists c size rest,
            fs = CallRenderFinal c :: CallGetSize size :: rest /\
            List.filter is_renderFinal rest = [] /\
            List.filter is_getSize rest = []).
  { destruct Hfs as [|c Hc|c size Hc|c size size' c' Hc Hd].
    - by apply Exists_nil in Hsize.
    - apply Exists_cons in Hsize as [?|Hsize]; [done|].
      by apply Exists_nil in Hsize.
    - by eexists _, _, _.
    - by eexists _, _, _. }
  destruct Hcases as (c & size & rest & -> & Hrf & Hgs).
  assert (Hne : CallRenderFinal c :: CallGetSize size :: rest <> []) by done.
  destruct (Hgate (or_intror Hne)) as (-> & Hvc).
  destruct (Hfin Hne) as (Ho & Hrc).
  rewrite (phases_validations _ _ _ Hrs Hfs), (phases_renders _ _ _ Hrs Hfs).
  rewrite !(phases_finals _ _ _ _) by (done || by intros []).
  simpl. rewrite Hrf, Hgs. by split_and!.
Qed.

(** ** The render phase, call by call *)

(** A throw out of the render loop: the calls before it returned. *)
Lemma render_loop_throw_log (stack : list entry) (ps : list promise)
    (r r' : B) (w w' : World) (e : Error) :
  render_loop ops stack ps r w = ((r', w'), inl e) ->
  Forall (fun v => truthy v = true) stack ->
  exists rs0 op,
    calls w' = calls w ++ rs0 ++ [CallRender op (Throws e)] /\
    Forall (fun ev => exists o p, ev = CallRender o (Returns p)) rs0.
Proof.
  intros E Hall. revert ps r w E.
  induction Hall as [|v stack Hv _ IH]; intros ps r w; simpl; [discriminate|].
  destruct v; try discriminate.
  destruct (Operation.render (ops op) r) as [r1 [e'|p]] eqn:Ec.
  - intros [= <- <- <-]. exists [], op. split; [done | constructor].
  - intros E. destruct (IH _ _ _ E) as (rs0 & op' & Hc & Hrs0).
    exists (CallRender op (Returns p) :: rs0), op'. rewrite Hc. simpl.
    rewrite <- app_assoc. split; [done|]. constructor; [by eexists _, _ | done].
Qed.

(** The promise of every logged call that returned is among the
    promises collected, and the other way round. *)
Lemma returned_calls_promises (rs : list event) (rps : list promise) :
  Forall2 (fun ev p => exists o, ev = CallRender o (Returns p)) rs rps ->
  (forall o c, CallRender o c ∈ rs -> exists p, c = Returns p /\ p ∈ rps) /\
  (forall p, p ∈ rps -> exists o, CallRender o (Returns p) ∈ rs).
Proof.
  induction 1 as [|ev p rs rps (o & ->) _ (IH1 & IH2)].
  - split; intros; by match goal with X : _ ∈ [] |- _ => inversion X end.
  - split.
    + intros o' c [[= -> ->]|Hin]%elem_of_cons.
      * exists p. split; [done | apply list_elem_of_here].
      * destruct (IH1 _ _ Hin) as (q & -> & Hq).
        exists q. split; [done | by apply list_elem_of_further].
    + intros q [->|Hin]%elem_of_cons.
      * exists o. apply list_elem_of_here.
      * destruct (IH2 _ Hin) as (o' & Ho'). exists o'.
        by apply list_elem_of_further.
Qed.

(** The calls of a [render()] that has started rendering: either a
    [render] call threw, it is the last call and its error rejects
    [render()]; or every operation was rendered, and [render()] goes on
    to the finalize phase exactly when all their promises fulfil. *)
Lemma render_phase_account (this : RenderImage B) (w : World)
    (items : list entry) (k : RendererKind) (r : B) :
  arrays w !! _stack this = Some items ->
  _renderer this = Some (k, r) ->
  let '(res, this', w') := render ops calculateFinalDimensions this w in
  Exists (fun e => is_render e = true) (new_calls w w') ->
  exists rs fs,
    new_calls w w' =
      (validate_call ops <$> operations_of (List.filter truthy items))
      ++ rs ++ fs /\
    Forall (fun e => is_render e = true) rs /\
    finalize_calls fs /\
    ((exists rs0 op e,
        rs = rs0 ++ [CallRender op (Throws e)] /\
        Forall (fun ev => exists o p, ev = CallRender o (Returns p)) rs0 /\
        fs = [] /\ res = Async (Rejected e))
     \/
     (omap callee rs = operations_of (List.filter truthy items) /\
      exists rps,
        Forall2 (fun ev p => exists o, ev = CallRender o (Returns p)) rs rps /\
        (Promise_all rps <> Fulfilled ->
         fs = [] /\ res = Async (Promise_all rps)))).
Proof.
  intros Hs Hren. rewrite (render_sanitized _ _ _ _ _ Hs).
  set (stack := List.filter truthy items).
  set (w0 := {| arrays := arrays w ++ [stack]; calls := calls w |}).
  assert (Hall : Forall (fun v => truthy v = true) stack)
    by apply filter_truthy_all.
  pose proof (validate_calls_are_validations ops) as Hval.
  unfold render_on.
  destruct (validate_loop ops stack [] w0) as [w1 [e|vps]] eqn:El.
  { destruct (validate_loop_log _ _ _ _ _ Hall El) as (asked & Hc & _).
    rewrite (new_calls_app w w1 _ Hc). intros Hex. exfalso.
    apply Exists_exists in Hex as (ev & Hin & He).
    specialize (Hval asked). rewrite Forall_forall in Hval.
    specialize (Hval ev Hin). by destruct ev. }
  destruct (validate_loop_log _ _ _ _ _ Hall El) as (asked & Hc1 & _ & ->).
  rewrite Hren.
  pose proof (render_chain_runs ops calculateFinalDimensions
                (_dimensions this) stack vps r w1) as Hch.
  destruct (render_chain _ _ _ _ _ _) as [[r' w'] p].
  assert (Hlog : forall evs, calls w' = calls w1 ++ evs ->
    new_calls w w' = (validate_call ops <$> operations_of stack) ++ evs).
  { intros evs Hc. apply new_calls_app. by rewrite Hc, Hc1, <- app_assoc. }
  destruct Hch as [Hv|r1 w2 e Hv Er|r1 w2 rps Hv Er Hr|r1 w2 rps r2 c Hv Er Hr Hf Ha
                   |r1 w2 rps r2 c Hv Er Hr Hf Ha He
                   |r1 w2 rps r2 c r3 c' Hv Er Hr Hf Ha He Hz].
  - rewrite (Hlog []) by by rewrite app_nil_r. rewrite app_nil_r.
    intros Hex. exfalso. apply Exists_exists in Hex as (ev & Hin & He).
    specialize (Hval (operations_of stack)). rewrite Forall_forall in Hval.
    specialize (Hval ev Hin). by destruct ev.
  - intros _. destruct (render_loop_throw_log _ _ _ _ _ _ _ Er Hall)
      as (rs0 & op & Hc & Hrs0).
    exists (rs0 ++ [CallRender op (Throws e)]), [].
    rewrite (Hlog _ Hc), app_nil_r. split_and!; try done; try apply finalize_not_reached.
    + apply Forall_app. split; [|by repeat constructor].
      eapply Forall_impl; [exact Hrs0|]. by intros ev (o & q & ->).
    + left. by exists rs0, op, e.
  - intros _. destruct (render_loop_inr _ _ _ _ _ _ _ _ Er)
      as (rs & new & Hc & Hnew & Ho & Hf2). simpl in Hnew. subst new.
    exists rs, []. rewrite app_nil_r, (Hlog _ Hc).
    split_and!; try done; try apply finalize_not_reached.
    + eapply Forall2_Forall_l; [exact Hf2|]. apply Forall_forall.
      by intros q _ ev (o & ->).
    + right. split; [done|]. by exists rps.
  - intros _. destruct (render_loop_inr _ _ _ _ _ _ _ _ Er)
      as (rs & new & Hc & Hnew & Ho & Hf2). simpl in Hnew. subst new.
    exists rs, [CallRenderFinal c]. rewrite <- (Hlog (rs ++ [CallRenderFinal c])).
    2:{ simpl. by rewrite Hc, <- app_assoc. }
    split_and!; try done; try (by apply finalize_failed);
      try (by apply finalize_without_resize).
    + eapply Forall2_Forall_l; [exact Hf2|]. apply Forall_forall.
      by intros q _ ev (o & ->).
    + right. split; [done|]. exists rps. split; [done|]. done.
  - intros _. destruct (render_loop_inr _ _ _ _ _ _ _ _ Er)
      as (rs & new & Hc & Hnew & Ho & Hf2). simpl in Hnew. subst new.
    exists rs, [CallRenderFinal c; CallGetSize (getSize r2)].
    rewrite <- (Hlog (rs ++ [CallRenderFinal c; CallGetSize (getSize r2)])).
    2:{ simpl. by rewrite Hc, <- !app_assoc. }
    split_and!; try done; try (by apply finalize_failed);
      try (by apply finalize_without_resize).
    + eapply Forall2_Forall_l; [exact Hf2|]. apply Forall_forall.
      by intros q _ ev (o & ->).
    + right. split; [done|]. exists rps. split; [done|]. done.
  - intros _. destruct (render_loop_inr _ _ _ _ _ _ _ _ Er)
      as (rs & new & Hc & Hnew & Ho & Hf2). simpl in Hnew. subst new.
    eexists rs, [CallRenderFinal c; CallGetSize (getSize r2); _].
    rewrite <- (Hlog (rs ++ [CallRenderFinal c; CallGetSize (getSize r2);
      CallResizeTo (calculateFinalDimensions (_dimensions this) (getSize r2))
        c'])).
    2:{ simpl. by rewrite Hc, <- !app_assoc. }
    split_and!; try done.
    + eapply Forall2_Forall_l; [exact Hf2|]. apply Forall_forall.
      by intros q _ ev (o & ->).
    + constructor; [done|]. intros Heq. apply equals_eq in Heq. congruence.
    + right. split; [done|]. exists rps. split; [done|]. done.
Qed.

Lemma render_call_in_phases (asked : list OpId) (rs fs : list event)
    (op : OpId) (c : completion) :
  finalize_calls fs ->
  CallRender op c ∈ (validate_call ops <$> asked) ++ rs ++ fs ->
  CallRender op c ∈ rs.
Proof.
  intros Hfs [Hin|[Hin|Hin]%elem_of_app]%elem_of_app; [|done|].
  - pose proof (validate_calls_are_validations ops asked) as Hv.
    rewrite Forall_forall in Hv. by specialize (Hv _ Hin).
  - apply finalize_calls_kinds in Hfs. rewrite Forall_forall in Hfs.
    by destruct (Hfs _ Hin).
Qed.

(** X4: a failing render step fails [render()] before the finalize
    phase: when the [render(renderer)] call of an operation throws or
    returns a promise that is rejected, the promise of [render()] is
    rejected with the error of a failing render step (the thrown error,
    when a call throws), and neither [renderFinal] nor [getSize] nor
    [resizeTo] is called. *)
Theorem failed_render_rejects_before_finalize (this : RenderImage B)
    (w : World) (items : list entry) (k : RendererKind) (r : B) :
  arrays w !! _stack this = Some items ->
  _renderer this = Some (k, r) ->
  let '(res, this', w') := render ops calculateFinalDimensions this w in
  forall op c e,
    CallRender op c ∈ new_calls w w' -> fails_with c e ->
    (exists op' c' e',
       res = Async (Rejected e') /\
       CallRender op' c' ∈ new_calls w w' /\ fails_with c' e') /\
    (forall e0, c = Throws e0 -> res = Async (Rejected e0)) /\
    Forall (fun ev => is_renderFinal ev = false /\ is_getSize ev = false /\
                      is_resizeTo ev = false) (new_calls w w').
Proof.
  intros Hs Hren.
  pose proof (render_phase_account this w items k r Hs Hren) as Hacc.
  destruct (render ops calculateFinalDimensions this w) as [[res this'] w'].
  intros op c e Hin Hfail.
  destruct Hacc as (rs & fs & E & Hrs & Hfs & Hcases).
  { apply Exists_exists. by exists (CallRender op c). }
  rewrite E in *. apply (render_call_in_phases _ _ _ _ _ Hfs) in Hin.
  pose proof (validate_calls_are_validations ops
                (operations_of (List.filter truthy items))) as Hval.
  assert (Hquiet : fs = [] ->
    Forall (fun ev => is_renderFinal ev = false /\ is_getSize ev = false /\
                      is_resizeTo ev = false)
      ((validate_call ops <$> operations_of (List.filter truthy items))
       ++ rs ++ fs)).
  { intros ->. rewrite app_nil_r. apply Forall_app. split.
    - weaken_calls Hval.
    - weaken_calls Hrs. }
  destruct Hcases as [(rs0 & op1 & e1 & -> & Hrs0 & Hnil & ->)
                     |(Ho & rps & Hf2 & Hstop)].
  - split_and!; [|intros e0 ->|by apply Hquiet].
    + exists op1, (Throws e1), e1. split_and!; [done| |by left].
      apply elem_of_app. right. apply elem_of_app. left.
      apply elem_of_app. right. apply list_elem_of_here.
    + apply elem_of_app in Hin as [Hin|Hin].
      * rewrite Forall_forall in Hrs0. by destruct (Hrs0 _ Hin) as (o & q & ?).
      * apply list_elem_of_singleton in Hin. by injection Hin as _ ->.
  - destruct (returned_calls_promises _ _ Hf2) as (Hcp & Hpc).
    destruct (Hcp _ _ Hin) as (p & -> & Hp).
    destruct Hfail as [?|[t Hr]]; [done|]. injection Hr as ->.
    destruct (Promise_all_rejected rps _ e Hp eq_refl)
      as (q & e' & Ha & Hq & Hqs).
    destruct Hstop as (Hnil & ->); [by rewrite Ha|].
    split_and!; [|by intros e0 ?|by apply Hquiet].
    destruct (Hpc _ Hq) as (o & Hcall).
    exists o, (Returns q), e'. rewrite Ha. split_and!; [done| |].
    + apply elem_of_app. right. apply elem_of_app. by left.
    + right. exists (tick q). destruct q. simpl in *. by subst.
Qed.

(** The validations of a [render()] that returns its promise. *)
Lemma render_async_validates (this this' : RenderImage B) (w w' : World)
    (items : list entry) (p : settlement) :
  arrays w !! _stack this = Some items ->
  render ops calculateFinalDimensions this w = (Async p, this', w') ->
  List.filter is_validateSettings (new_calls w w')
  = validate_call ops <$> operations_of (List.filter truthy items).
Proof.
  intros Hs. rewrite (render_sanitized _ _ _ _ _ Hs). intros E.
  apply render_on_validates in E as (rest & Hc & Hrest). simpl in Hc.
  rewrite (new_calls_app _ _ _ Hc), List.filter_app.
  rewrite (filter_all is_validateSettings (validate_call ops <$> _))
    by apply validate_calls_are_validations.
  by rewrite (filter_none is_validateSettings rest), app_nil_r.
Qed.

(** X5: a rejected promise cancels nothing within its phase: whenever
    [render()] returns its promise (no [validateSettings()] threw),
    every operation of the sanitized stack has been asked to validate,
    whatever the earlier validations gave; and once rendering has
    started, unless a [render] call throws, every operation of the
    sanitized stack is rendered, whatever the earlier render steps
    gave. *)
Theorem rejections_do_not_cancel_calls (this : RenderImage B) (w : World)
    (items : list entry) (k : RendererKind) (r : B) :
  arrays w !! _stack this = Some items ->
  _renderer this = Some (k, r) ->
  let '(res, this', w') := render ops calculateFinalDimensions this w in
  (forall p, res = Async p ->
     List.filter is_validateSettings (new_calls w w')
     = validate_call ops <$> operations_of (List.filter truthy items)) /\
  (Exists (fun e => is_render e = true) (new_calls w w') ->
   (forall op e, CallRender op (Throws e) ∉ new_calls w w') ->
   omap callee (List.filter is_render (new_calls w w'))
   = operations_of (List.filter truthy items)).
Proof.
  intros Hs Hren.
  pose proof (render_phase_account this w items k r Hs Hren) as Hacc.
  pose proof (fun p this' w' => render_async_validates this this' w w' items p Hs)
    as Hval.
  destruct (render ops calculateFinalDimensions this w) as [[res this'] w'].
  split; [intros p ->; by eapply Hval|].
  intros Hex Hnothrow.
  destruct (Hacc Hex) as (rs & fs & E & Hrs & Hfs & Hcases).
  rewrite E in *. rewrite (phases_renders _ _ _ Hrs Hfs).
  destruct Hcases as [(rs0 & op1 & e1 & -> & _)|(Ho & _)]; [|done].
  exfalso. apply (Hnothrow op1 e1).
  apply elem_of_app. right. apply elem_of_app. left.
  apply elem_of_app. right. apply list_elem_of_here.
Qed.

(** X6: once every operation has validated and rendered, [render()]
    settles as the finalize and resize phases do.  [renderFinal] is
    called; if it does not fulfil, [render()] settles the same way and
    no other call is made on the renderer; if it fulfils, the size is
    read, and [render()] resolves at once when the final size computed
    from it equals it, and otherwise settles as the one [resizeTo] call,
    made with the final size, does. *)
Theorem render_settles_as_finalize_and_resize (this : RenderImage B)
    (w : World) (items : list entry) (k : RendererKind) (r : B) :
  arrays w !! _stack this = Some items ->
  _renderer this = Some (k, r) ->
  reaches_finalize ops (List.filter truthy items) r = true ->
  let '(res, this', w') := render ops calculateFinalDimensions this w in
  exists c,
    match adopt c with
    | Fulfilled =>
        exists current,
          let resolved :=
            calculateFinalDimensions (_dimensions this) current in
          if Vector2.equals resolved current then
            res = Async Fulfilled /\
            List.filter uses_renderer (new_calls w w')
              = [CallRenderFinal c; CallGetSize current]
          else
            exists c',
              res = Async (adopt c') /\
              List.filter uses_renderer (new_calls w w')
                = [CallRenderFinal c; CallGetSize current;
                   CallResizeTo resolved c']
    | other =>
        res = Async other /\
        List.filter uses_renderer (new_calls w w') = [CallRenderFinal c]
    end.
Proof.
  intros Hs Hren Hreach. rewrite (render_sanitized _ _ _ _ _ Hs).
  set (stack := List.filter truthy items) in *.
  set (l := operations_of stack).
  set (w0 := {| arrays := arrays w ++ [stack]; calls := calls w |}).
  assert (Hall : Forall (fun v => truthy v = true) stack)
    by apply filter_truthy_all.
  unfold render_on.
  destruct (validate_loop ops stack [] w0) as [w1 [e|vps]] eqn:El.
  { by rewrite (reaches_finalize_eq ops stack r w0 w0), El in Hreach. }
  rewrite (reaches_finalize_eq ops stack r w0 w1), El in Hreach.
  simpl in Hreach.
  destruct (Promise_all vps) eqn:Hv; try done.
  destruct (render_loop ops stack [] r w1) as [[r1 w2] [e|rps]] eqn:Er;
    simpl in Hreach; [done|].
  destruct (Promise_all rps) eqn:Hr; try done.
  destruct (validate_loop_log _ _ _ _ _ Hall El) as (asked & Hc1 & _ & ->).
  destruct (render_loop_frame ops stack [] r w1) as (_ & rs & Hc2 & Hrs).
  rewrite Er in Hc2. simpl in Hc2.
  rewrite Hren. unfold render_chain, then_, render_phase. rewrite Hv.
  cbn beta iota. rewrite Er. cbn beta iota. simpl adopt. rewrite Hr.
  unfold finalize_phase. fold l.
  destruct (renderFinal r1) as [r2 c].
  assert (Hlog : forall w' tail, calls w' = calls w2 ++ tail ->
    Forall (fun e => uses_renderer e = true) tail ->
    List.filter uses_renderer (new_calls w w') = tail).
  { intros w' tail Hc Ht.
    assert (E : calls w' = calls w ++ (validate_call ops <$> l) ++ rs ++ tail)
      by (rewrite Hc, Hc2, Hc1, <- !app_assoc; done).
    rewrite (new_calls_app _ _ _ E), !List.filter_app.
    rewrite (filter_none uses_renderer (validate_call ops <$> l)),
      (filter_none uses_renderer rs), (filter_all uses_renderer tail); try done.
    - weaken_calls Hrs.
    - pose proof (validate_calls_are_validations ops l) as Hval.
      weaken_calls Hval. }
  destruct (adopt c) eqn:Ha; simpl.
  - unfold resize_phase.
    destruct (Vector2.equals _ _) eqn:Heq; simpl.
    + exists c. rewrite Ha. exists (getSize r2). cbv zeta. rewrite Heq.
      split; [done|].
      apply Hlog; [|by repeat constructor]. simpl. by rewrite <- app_assoc.
    + destruct (resizeTo _ r2) as [r3 c'] eqn:Hz. simpl.
      exists c. rewrite Ha. exists (getSize r2). cbv zeta. rewrite Heq.
      exists c'. split; [done|].
      apply Hlog; [|by repeat constructor]. simpl. by rewrite <- !app_assoc.
  - exists c. rewrite Ha. split; [done|].
    apply Hlog; [done | by repeat constructor].
  - exists c. rewrite Ha. split; [done|].
    apply Hlog; [done | by repeat constructor].
Qed.

(** X8: falsy entries are inert: for one instance, whatever the world,
    two contents of the caller's stack with the same truthy entries in
    the same order give the same result of [render()], the same calls
    with the same answers, and the same instance afterwards. *)
Theorem falsy_entries_are_inert (this : RenderImage B) (w1 w2 : World)
    (items1 items2 : list entry) :
  arrays w1 !! _stack this = Some items1 ->
  arrays w2 !! _stack this = Some items2 ->
  List.filter truthy items1 = List.filter truthy items2 ->
  let '(res1, this1, w1') := render ops calculateFinalDimensions this w1 in
  let '(res2, this2, w2') := render ops calculateFinalDimensions this w2 in
  res1 = res2 /\ this1 = this2 /\ new_calls w1 w1' = new_calls w2 w2'.
Proof.
  intros Hs1 Hs2 Heq.
  rewrite (render_sanitized _ _ _ _ _ Hs1), (render_sanitized _ _ _ _ _ Hs2).
  rewrite Heq.
  rewrite (render_on_extend this (List.filter truthy items2)
             {| arrays := arrays w1 ++ _; calls := calls w1 |}).
  rewrite (render_on_extend this (List.filter truthy items2)
             {| arrays := arrays w2 ++ _; calls := calls w2 |}).
  destruct (render_on _ _ _ _ empty_world) as [[res this'] w0].
  split_and!; try done.
  by rewrite !new_calls_extend.
Qed.

End Protocol.

(** * Further properties of the instance *)

Section Instance.
Context {B : Type} `{Renderer B}.
Variable ops : OpId -> Operation.t B.
Variable calculateFinalDimensions : string -> Vector2.t -> Vector2.t.

(** X9: [sanitizedStack] hands out a copy, and a new one at every call:
    the array it returns is not the caller's stack; writing to it
    changes neither the stack nor what the next call returns; and the
    next call returns yet another array, with the truthy entries of the
    stack again. *)
Theorem sanitizedStack_returns_fresh_copy (this : RenderImage B) (w : World)
    (items : list entry) :
  arrays w !! _stack this = Some items ->
  exists r1 w1,
    sanitizedStack this w = (Returned r1, w1) /\
    r1 <> _stack this /\
    forall written,
      let w1' := caller_mutates r1 written w1 in
      arrays w1' !! _stack this = Some items /\
      exists r2 w2,
        sanitizedStack this w1' = (Returned r2, w2) /\
        r2 <> r1 /\ r2 <> _stack this /\
        arrays w2 !! r2 = Some (List.filter truthy items) /\
        arrays w2 !! r1 = Some written.
Proof.
  intros Hs. pose proof (lookup_lt_Some _ _ _ Hs) as Hlt.
  eexists _, _. split; [by apply sanitizedStack_spec|].
  split; [lia|]. intros written. simpl.
  assert (Hs' : <[length (arrays w) := written]>
                  (arrays w ++ [List.filter truthy items]) !! _stack this
                = Some items).
  { rewrite list_lookup_insert_ne by lia. by apply lookup_app_l_Some. }
  split; [done|].
  eexists _, _. split; [by apply sanitizedStack_spec|]. simpl.
  rewrite length_insert, length_app. simpl. split_and!; try lia.
  - rewrite lookup_app_r; rewrite length_insert, length_app; simpl; [|lia].
    by rewrite Nat.sub_diag.
  - rewrite lookup_app_l by (rewrite length_insert, length_app; simpl; lia).
    apply list_lookup_insert_eq. rewrite length_app. simpl. lia.
Qed.

(** X10: sanitizing removes the falsy entries and nothing else: the
    array returned is as long as the stack less its falsy entries, and
    it holds the very entries of the stack exactly when the stack has
    no falsy entry; it is empty exactly when the stack has no
    operation. *)
Theorem sanitizedStack_drops_only_falsy (this : RenderImage B) (w : World)
    (items : list entry) :
  arrays w !! _stack this = Some items ->
  exists r w' out,
    sanitizedStack this w = (Returned r, w') /\
    arrays w' !! r = Some out /\
    length out + length (List.filter (fun v => negb (truthy v)) items)
      = length items /\
    (out = items <-> Forall (fun v => truthy v = true) items) /\
    (out = [] <-> Forall (fun v => truthy v = false) items).
Proof.
  intros Hs. eexists _, _, _. split; [by apply sanitizedStack_spec|].
  split; [simpl; by rewrite lookup_app_r, Nat.sub_diag by lia|].
  clear. split_and!.
  - induction items as [|v items IH]; [done|]. simpl.
    destruct (truthy v); simpl; lia.
  - split; [|apply filter_truthy_id].
    intros E. rewrite <- E. apply filter_truthy_all.
  - split; [|apply filter_truthy_falsy].
    induction items as [|v items IH]; [constructor|]. simpl.
    destruct (truthy v) eqn:Ev; [discriminate|].
    intros E. constructor; [done | by apply IH].
Qed.

(** X11: with the preference "canvas" the WebGL renderer is never
    created, not even when it is the only one supported: the constructor
    returns an instance on the Canvas renderer when that one is
    supported and throws otherwise.  Both classes are probed all the
    same, WebGL first. *)
Theorem canvas_preference_never_uses_webgl (image : Image)
    (operationsStack : ref) (dimensions : string) (w : World) :
  let '(res, w') :=
    constructor image operationsStack dimensions (Some "canvas"%string) w in
  match res with
  | Returned this =>
      isSupported CanvasRenderer = true /\
      (exists r, getRenderer this = Some (CanvasRenderer, r)) /\
      _webglEnabled this = false
  | Threw e => isSupported CanvasRenderer = false /\ e = NoRendererAvailable
  end /\
  Forall (fun ev => forall dims, ev <> CallNew WebGLRenderer dims)
    (new_calls w w') /\
  exists rest,
    new_calls w w' =
      CallIsSupported WebGLRenderer (isSupported WebGLRenderer)
      :: CallIsSupported CanvasRenderer (isSupported CanvasRenderer) :: rest.
Proof.
  unfold constructor, _initRenderer.
  rewrite select_renderer_spec by done. simpl.
  rewrite andb_false_r.
  destruct (isSupported CanvasRenderer) eqn:Ec; simpl.
  - split; [split_and!; [done|by eexists|done]|].
    unfold new_calls. simpl. rewrite <- app_assoc, drop_app_length.
    split; [by repeat constructor | by eexists].
  - split; [done|].
    unfold new_calls. simpl. rewrite drop_app_length.
    split; [by repeat constructor | by eexists].
Qed.


(** [render()] changes nothing of the instance but the state of its
    renderer. *)
Lemma render_fields (this : RenderImage B) (w : World) :
  let '(res, this', w') := render ops calculateFinalDimensions this w in
  this' = this \/
  exists k r r', _renderer this = Some (k, r) /\
                 this' = set_renderer this k r' (_webglEnabled this).
Proof.
  unfold render.
  destruct (sanitizedStack this w) as [[e|sref] w0]; [by left|].
  unfold render_on.
  destruct (validate_loop _ _ _ _) as [w1 [e|vps]]; [by left|].
  destruct (_renderer this) as [[k r]|] eqn:Er; [|by left].
  destruct (render_chain _ _ _ _ _ _) as [[r' w'] p].
  right. by exists k, r, r'.
Qed.

Lemma lifetime_fields (script : list action) (this : RenderImage B)
    (w : World) (k : RendererKind) (r : B) :
  _renderer this = Some (k, r) ->
  let '(this', w') := lifetime ops calculateFinalDimensions script (this, w) in
  exists r', this' = set_renderer this k r' (_webglEnabled this).
Proof.
  unfold lifetime. revert this w r.
  induction script as [|a script IH]; intros this w r Hr; cbn [foldl].
  - exists r. destruct this. simpl in *. by subst.
  - assert (Hstep : let '(this1, w1) :=
        perform ops calculateFinalDimensions (this, w) a in
      exists r1, this1 = set_renderer this k r1 (_webglEnabled this)).
    { assert (Hid : this = set_renderer this k r (_webglEnabled this)).
      { destruct this. simpl in *. by subst. }
      destruct a; simpl; try by exists r.
      pose proof (render_fields this w) as Hf.
      destruct (render _ _ _ _) as [[res this1] w1].
      destruct Hf as [->|(k' & r0 & r' & Hr' & ->)]; [by exists r|].
      rewrite Hr in Hr'. injection Hr' as <- <-. by exists r'. }
    destruct (perform _ _ _ _) as [this1 w1]. destruct Hstep as (r1 & ->).
    specialize (IH (set_renderer this k r1 (_webglEnabled this)) w1 r1 eq_refl).
    destruct (foldl _ _ _) as [this' w']. destruct IH as (r' & ->).
    by exists r'.
Qed.

(** X13: what the constructor settles stays settled: whatever the
    caller then does with the instance, its image, stack reference,
    dimensions, preference and initial dimensions (the width and height
    of the image) stay as constructed, [getRenderer] keeps giving a
    renderer of the class selected at construction, and [_webglEnabled]
    keeps telling whether that class is the WebGL one. *)
Theorem construction_choices_are_permanent (image : Image)
    (operationsStack : ref) (dimensions : string)
    (preferredRenderer : option string) (w w1 : World)
    (this : RenderImage B) (script : list action) :
  constructor image operationsStack dimensions preferredRenderer w
  = (Returned this, w1) ->
  let '(this', w') :=
    lifetime ops calculateFinalDimensions script (this, w1) in
  _image this' = image /\ _stack this' = operationsStack /\
  _dimensions this' = dimensions /\
  _options_preferredRenderer this' = preferredRenderer /\
  _initialDimensions this' = Vector2.mk (width image) (height image) /\
  exists k r r',
    getRenderer this = Some (k, r) /\ getRenderer this' = Some (k, r') /\
    (_webglEnabled this' = true <-> k = WebGLRenderer).
Proof.
  intros Hc.
  assert (Hthis : exists k r,
    this = {| _options_preferredRenderer := preferredRenderer;
              _webglEnabled :=
                match k with WebGLRenderer => true | CanvasRenderer => false end;
              _renderer := Some (k, r);
              _image := image;
              _stack := operationsStack;
              _dimensions := dimensions;
              _initialDimensions := Vector2.mk (width image) (height image) |}).
  { revert Hc. unfold constructor, _initRenderer.
    rewrite select_renderer_spec by done. simpl.
    destruct (isSupported WebGLRenderer && _); simpl.
    - intros [= <- _]. by eexists WebGLRenderer, _.
    - destruct (isSupported CanvasRenderer); simpl; [|discriminate].
      intros [= <- _]. by eexists CanvasRenderer, _. }
  destruct Hthis as (k & r & ->).
  match type of Hc with
  | _ = (Returned ?t, _) =>
      pose proof (lifetime_fields script t w1 k r eq_refl) as Hl
  end.
  destruct (lifetime _ _ _ _) as [this' w']. destruct Hl as (r' & ->).
  simpl. split_and!; try done.
  exists k, r, r'. split_and!; try done. by destruct k.
Qed.

(** X14: a successful construction creates one renderer, of the class
    selected, at the width and height of the image, draws the image on
    it, and keeps it: these two calls follow the probes, which are the
    only other calls, and [getRenderer] gives the renderer as
    [drawImage] left it.  No array is touched. *)
Theorem constructor_seeds_one_renderer (image : Image) (operationsStack : ref)
    (dimensions : string) (preferredRenderer : option string) (w w1 : World)
    (this : RenderImage B) :
  constructor image operationsStack dimensions preferredRenderer w
  = (Returned this, w1) ->
  let size := Vector2.mk (width image) (height image) in
  exists k probes,
    getRenderer this = Some (k, drawImage image (new_renderer k size)) /\
    new_calls w w1 = probes ++ [CallNew k size; CallDrawImage image] /\
    Forall (fun ev => exists k' b, ev = CallIsSupported k' b) probes /\
    arrays w1 = arrays w.
Proof.
  unfold constructor, _initRenderer.
  rewrite select_renderer_spec by done. simpl.
  destruct (isSupported WebGLRenderer && _); simpl.
  - intros [= <- <-]. exists WebGLRenderer, [CallIsSupported WebGLRenderer
                                               (isSupported WebGLRenderer)].
    unfold new_calls. simpl. rewrite <- app_assoc, drop_app_length.
    split_and!; try done. repeat constructor. by eexists _, _.
  - destruct (isSupported CanvasRenderer); simpl; [|discriminate].
    intros [= <- <-].
    exists CanvasRenderer, [CallIsSupported WebGLRenderer
                              (isSupported WebGLRenderer);
                            CallIsSupported CanvasRenderer true].
    unfold new_calls. simpl. rewrite <- app_assoc, drop_app_length.
    split_and!; try done. repeat constructor; by eexists _, _.
Qed.

(** The calls of the last two phases within one [render()]. *)
Lemma render_final_counts (this : RenderImage B) (w : World) :
  let '(res, this', w') := render ops calculateFinalDimensions this w in
  exists evs,
    calls w' = calls w ++ evs /\
    length (List.filter is_renderFinal evs) <= 1 /\
    length (List.filter is_getSize evs)
      <= length (List.filter is_renderFinal evs) /\
    length (List.filter is_resizeTo evs)
      <= length (List.filter is_getSize evs).
Proof.
  destruct (arrays w !! _stack this) as [items|] eqn:Hs.
  - pose proof (render_log_shape ops calculateFinalDimensions this w items Hs)
      as Hshape.
    pose proof (render_frame ops calculateFinalDimensions this w) as Hf.
    destruct (render ops calculateFinalDimensions this w) as [[res this'] w'].
    destruct Hf as (_ & _ & _ & _ & evs & Hc & _).
    rewrite (new_calls_app _ _ _ Hc) in Hshape.
    destruct Hshape as (asked & rs & fs & -> & _ & Hrs & _ & Hfs & _).
    eexists. split; [exact Hc|].
    rewrite !(phases_finals ops _ _ _ _) by (done || by intros []).
    destruct Hfs; simpl; lia.
  - unfold render, sanitizedStack, alloc_array. rewrite Hs. simpl.
    exists []. rewrite app_nil_r. simpl. split_and!; try done; lia.
Qed.

(** X15: over any use of an instance, [renderFinal] is requested at
    most once per [render()] call, [getSize] is never read more often
    than [renderFinal] was requested, and [resizeTo] never called more
    often than [getSize] was read. *)
Theorem finalize_calls_bounded_by_renders (script : list action)
    (this : RenderImage B) (w : World) :
  let '(this', w') :=
    lifetime ops calculateFinalDimensions script (this, w) in
  length (List.filter is_renderFinal (new_calls w w'))
    <= length (List.filter is_render_call script) /\
  length (List.filter is_getSize (new_calls w w'))
    <= length (List.filter is_renderFinal (new_calls w w')) /\
  length (List.filter is_resizeTo (new_calls w w'))
    <= length (List.filter is_getSize (new_calls w w')).
Proof.
  assert (Hgen : forall this w,
    let '(this', w') :=
      lifetime ops calculateFinalDimensions script (this, w) in
    exists evs,
      calls w' = calls w ++ evs /\
      length (List.filter is_renderFinal evs)
        <= length (List.filter is_render_call script) /\
      length (List.filter is_getSize evs)
        <= length (List.filter is_renderFinal evs) /\
      length (List.filter is_resizeTo evs)
        <= length (List.filter is_getSize evs)).
  { clear this w. unfold lifetime.
    induction script as [|a script IH]; intros this w; cbn [foldl].
    - exists []. rewrite app_nil_r. simpl. split_and!; try done; lia.
    - assert (Hstep : let '(this1, w1) :=
          perform ops calculateFinalDimensions (this, w) a in
        exists evs,
          calls w1 = calls w ++ evs /\
          length (List.filter is_renderFinal evs)
            <= (if is_render_call a then 1 else 0) /\
          length (List.filter is_getSize evs)
            <= length (List.filter is_renderFinal evs) /\
          length (List.filter is_resizeTo evs)
            <= length (List.filter is_getSize evs)).
      { destruct a; simpl.
        - pose proof (render_final_counts this w) as Hr.
          by destruct (render _ _ _ _) as [[res this1] w1].
        - destruct (sanitizedStack_frame this w) as (Hc & _).
          exists []. rewrite app_nil_r. simpl. split_and!; try done; lia.
        - exists []. rewrite app_nil_r. simpl. split_and!; try done; lia.
        - exists []. rewrite app_nil_r. simpl. split_and!; try done; lia. }
      destruct (perform _ _ _ _) as [this1 w1].
      destruct Hstep as (evs1 & Hc1 & Hrf1 & Hgs1 & Hrz1).
      specialize (IH this1 w1). destruct (foldl _ _ _) as [this' w'].
      destruct IH as (evs2 & Hc2 & Hrf2 & Hgs2 & Hrz2).
      exists (evs1 ++ evs2). rewrite Hc2, Hc1, <- app_assoc.
      rewrite !List.filter_app, !length_app. simpl.
      split; [done|]. destruct (is_render_call a); simpl; lia. }
  specialize (Hgen this w). destruct (lifetime _ _ _ _) as [this' w'].
  destruct Hgen as (evs & Hc & Hb). by rewrite (new_calls_app _ _ _ Hc).
Qed.

End Instance.

(** * The model at work on a concrete host *)

(** The example of the specification: [[op1, null, op2, undefined, op3]]
    is sanitized to [[op1, op2, op3]]. *)
Example sanitizedStack_mixed :
  let '(res, w') := sanitizedStack (Demo.instance "auto") (Demo.world Demo.mixed_stack) in
  res = Returned 1 /\
  arrays w' = [Demo.mixed_stack; [JOperation 1; JOperation 2; JOperation 3]].
Proof. by vm_compute. Qed.

(** A 100x100 source with dimensions resolving to 50x50, after a crop to
    98x98: one resize, to (50,50). *)
Example render_resizes_once :
  List.filter is_resizeTo
    (calls (snd (render (H := Demo.canvas_host) Demo.ops
                   Demo.calculateFinalDimensions (Demo.instance "50x50")
                   (Demo.world Demo.mixed_stack))))
  = [CallResizeTo (Vector2.mk 50 50) (Demo.fulfilled_at 1)].
Proof. by vm_compute. Qed.

(** Dimensions resolving to the identity: no resize. *)
Example render_identity_no_resize :
  List.filter is_resizeTo
    (calls (snd (render (H := Demo.canvas_host) Demo.ops
                   Demo.calculateFinalDimensions (Demo.instance "auto")
                   (Demo.world Demo.mixed_stack))))
  = [].
Proof. by vm_compute. Qed.

Lemma sanitizedStack_truthy_subsequence_witness :
  arrays (Demo.world Demo.mixed_stack) !! _stack (Demo.instance "auto")
    = Some Demo.mixed_stack /\
  exists r w',
    sanitizedStack (Demo.instance "auto") (Demo.world Demo.mixed_stack)
      = (Returned r, w') /\
    arrays w' !! r = Some (List.filter truthy Demo.mixed_stack) /\
    Forall (fun v => truthy v = true) (List.filter truthy Demo.mixed_stack) /\
    sublist (List.filter truthy Demo.mixed_stack) Demo.mixed_stack /\
    (forall v, v ∈ Demo.mixed_stack -> truthy v = true ->
               v ∈ List.filter truthy Demo.mixed_stack).
Proof.
  assert (h : arrays (Demo.world Demo.mixed_stack) !! _stack (Demo.instance "auto")
              = Some Demo.mixed_stack) by reflexivity.
  exact (conj h (sanitizedStack_truthy_subsequence
                   (Demo.instance "auto") (Demo.world Demo.mixed_stack)
                   Demo.mixed_stack h)).
Defined.



Lemma no_renderer_available_witness :
  isSupported (Renderer := Demo.bare_host) WebGLRenderer = false /\
  isSupported (Renderer := Demo.bare_host) CanvasRenderer = false /\
  exists w',
    constructor (H := Demo.bare_host) Demo.image 0 "50x50" None
      (Demo.world Demo.mixed_stack)
    = (Threw NoRendererAvailable, w') /\
    new_calls (Demo.world Demo.mixed_stack) w'
      = [CallIsSupported WebGLRenderer false;
         CallIsSupported CanvasRenderer false] /\
    Forall (fun ev => uses_renderer ev = false /\ is_drawImage ev = false)
      (new_calls (Demo.world Demo.mixed_stack) w') /\
    arrays w' = arrays (Demo.world Demo.mixed_stack).
Proof.
  assert (h1 : isSupported (Renderer := Demo.bare_host) WebGLRenderer = false)
    by reflexivity.
  assert (h2 : isSupported (Renderer := Demo.bare_host) CanvasRenderer = false)
    by reflexivity.
  exact (conj h1 (conj h2
    (no_renderer_available (H := Demo.bare_host) Demo.image 0 "50x50" None
       (Demo.world Demo.mixed_stack) h1 h2))).
Defined.

Lemma resize_only_when_size_differs_witness :
  let this := Demo.instance "50x50" in
  let w := Demo.world Demo.mixed_stack in
  let run :=
    render (H := Demo.canvas_host) Demo.ops Demo.calculateFinalDimensions
      this w in
  run = (Async Fulfilled, snd (fst run), snd run) /\
  exists before c current resizes,
    let resolved :=
      Demo.calculateFinalDimensions (_dimensions this) current in
    new_calls w (snd run) =
      before ++ CallRenderFinal c :: CallGetSize current :: resizes /\
    Forall (fun e => is_renderFinal e = false /\ is_getSize e = false /\
                     is_resizeTo e = false) before /\
    List.filter is_resizeTo (new_calls w (snd run)) = resizes /\
    (Vector2.equals resolved current = true <-> resolved = current) /\
    if Vector2.equals resolved current then resizes = []
    else exists c', resizes = [CallResizeTo resolved c'] /\
                    adopt c' = Fulfilled.
Proof.
  intros this w run.
  assert (h : run = (Async Fulfilled, snd (fst run), snd run)) by reflexivity.
  exact (conj h (resize_only_when_size_differs (H := Demo.canvas_host)
                   Demo.ops Demo.calculateFinalDimensions
                   this (snd (fst run)) w (snd run) h)).
Defined.

Lemma renderFinal_once_per_render_witness :
  let this := Demo.instance "50x50" in
  let w := Demo.world Demo.mixed_stack in
  arrays w !! _stack this = Some Demo.mixed_stack /\
  _renderer this = Some (CanvasRenderer, Vector2.mk 100 100) /\
  let stack := List.filter truthy Demo.mixed_stack in
  let '(res1, this1, w1) :=
    render (H := Demo.canvas_host) Demo.ops Demo.calculateFinalDimensions
      this w in
  let '(res2, this2, w2) :=
    render (H := Demo.canvas_host) Demo.ops Demo.calculateFinalDimensions
      this1 w1 in
  (reaches_finalize Demo.ops stack (Vector2.mk 100 100) = true <->
   Exists (fun e => is_renderFinal e = true) (new_calls w w1)) /\
  (reaches_finalize Demo.ops stack (Vector2.mk 100 100) = true ->
   exists rs c tail,
     new_calls w w1 =
       (validate_call Demo.ops <$> operations_of stack)
       ++ rs ++ CallRenderFinal c :: tail /\
     omap callee rs = operations_of stack /\
     Forall (fun e => is_render e = true /\ completed e = true) rs /\
     Forall (fun e => is_renderFinal e = false /\ is_render e = false /\
                      is_validateSettings e = false) tail /\
     length (List.filter is_renderFinal (new_calls w w1)) = 1) /\
  (forall k1 r1, _renderer this1 = Some (k1, r1) ->
   reaches_finalize Demo.ops stack (Vector2.mk 100 100) = true ->
   reaches_finalize Demo.ops stack r1 = true ->
   length (List.filter is_renderFinal (new_calls w1 w2)) = 1 /\
   length (List.filter is_renderFinal (new_calls w w2)) = 2).
Proof.
  intros this w.
  assert (h1 : arrays w !! _stack this = Some Demo.mixed_stack) by reflexivity.
  assert (h2 : _renderer this = Some (CanvasRenderer, Vector2.mk 100 100))
    by reflexivity.
  exact (conj h1 (conj h2
    (renderFinal_once_per_render (H := Demo.canvas_host)
       Demo.ops Demo.calculateFinalDimensions this w
       Demo.mixed_stack CanvasRenderer (Vector2.mk 100 100) h1 h2))).
Defined.

(** On the concrete host both calls do reach the finalize phase, and
    [renderFinal] is requested twice. *)
Example render_twice_finalizes_twice :
  let w := Demo.world Demo.mixed_stack in
  let '(_, this1, w1) :=
    render (H := Demo.canvas_host) Demo.ops Demo.calculateFinalDimensions
      (Demo.instance "50x50") w in
  let '(_, _, w2) :=
    render (H := Demo.canvas_host) Demo.ops Demo.calculateFinalDimensions
      this1 w1 in
  List.filter is_renderFinal (new_calls w w1)
    = [CallRenderFinal (Demo.fulfilled_at 1)] /\
  List.filter is_renderFinal (new_calls w w2)
    = [CallRenderFinal (Demo.fulfilled_at 1);
       CallRenderFinal (Demo.fulfilled_at 1)].
Proof. by vm_compute. Qed.

Lemma drawImage_once_at_construction_witness :
  let w := Demo.world Demo.mixed_stack in
  let script := [ActRender; ActMutate 0 [JOperation 2]; ActGetRenderer;
                 ActSanitizedStack; ActRender] in
  constructor (H := Demo.canvas_host) Demo.image 0 "50x50" None w
    = (Returned (Demo.instance "50x50"),
       Demo.constructed_world Demo.mixed_stack) /\
  let '(this', w') :=
    lifetime (H := Demo.canvas_host) Demo.ops Demo.calculateFinalDimensions
      script (Demo.instance "50x50", Demo.constructed_world Demo.mixed_stack) in
  exists probes later,
    new_calls w (Demo.constructed_world Demo.mixed_stack)
      = probes ++ [CallDrawImage Demo.image] /\
    new_calls w w' = probes ++ CallDrawImage Demo.image :: later /\
    Forall (fun ev => is_drawImage ev = false /\ is_render_phase ev = false)
      probes /\
    Forall (fun ev => is_render_phase ev = true /\ is_drawImage ev = false)
      later /\
    List.filter is_drawImage (new_calls w w') = [CallDrawImage Demo.image].
Proof.
  intros w script.
  assert (h : constructor (H := Demo.canvas_host) Demo.image 0 "50x50" None w
              = (Returned (Demo.instance "50x50"),
                 Demo.constructed_world Demo.mixed_stack)) by reflexivity.
  exact (conj h (drawImage_once_at_construction (H := Demo.canvas_host)
                   Demo.ops Demo.calculateFinalDimensions
                   Demo.image 0 "50x50" None w
                   (Demo.constructed_world Demo.mixed_stack)
                   (Demo.instance "50x50") script h)).
Defined.

Lemma render_recomputes_sanitized_stack_witness :
  let this := Demo.instance "50x50" in
  let w := Demo.world Demo.mixed_stack in
  let items' := [JFalse; JOperation 3; JZero; JOperation 1] in
  arrays w !! _stack this = Some Demo.mixed_stack /\
  let '(res1, this1, w1) :=
    render (H := Demo.canvas_host) Demo.ops Demo.calculateFinalDimensions
      this w in
  let w2 := caller_mutates (_stack this1) items' w1 in
  (exists w0,
     render (H := Demo.canvas_host) Demo.ops Demo.calculateFinalDimensions
       this w
     = render_on (H := Demo.canvas_host) Demo.ops Demo.calculateFinalDimensions
         this (List.filter truthy Demo.mixed_stack) w0) /\
  exists r2 w3,
    sanitizedStack this1 w2 = (Returned r2, w3) /\
    arrays w3 !! r2 = Some (List.filter truthy items') /\
    arrays w1 !! r2 = None /\
    render (H := Demo.canvas_host) Demo.ops Demo.calculateFinalDimensions
      this1 w2
    = render_on (H := Demo.canvas_host) Demo.ops Demo.calculateFinalDimensions
        this1 (List.filter truthy items') w3 /\
    let '(res2, this2, w4) :=
      render (H := Demo.canvas_host) Demo.ops Demo.calculateFinalDimensions
        this1 w2 in
    forall p, res2 = Async p ->
      exists rest,
        new_calls w2 w4 =
          (validate_call Demo.ops <$>
             operations_of (List.filter truthy items'))
          ++ rest /\
        Forall (fun e => is_validateSettings e = false) rest.
Proof.
  intros this w items'.
  assert (h : arrays w !! _stack this = Some Demo.mixed_stack) by reflexivity.
  exact (conj h (render_recomputes_sanitized_stack (H := Demo.canvas_host)
                   Demo.ops Demo.calculateFinalDimensions this w
                   Demo.mixed_stack items' h)).
Defined.

(** On the concrete host: after the caller has replaced its stack, the
    second [render()] validates the operations of the new contents. *)
Example render_after_mutation :
  let w := Demo.world Demo.mixed_stack in
  let '(_, this1, w1) :=
    render (H := Demo.canvas_host) Demo.ops Demo.calculateFinalDimensions
      (Demo.instance "auto") w in
  let w2 := caller_mutates 0 [JFalse; JOperation 3; JZero; JOperation 1] w1 in
  let '(_, _, w3) :=
    render (H := Demo.canvas_host) Demo.ops Demo.calculateFinalDimensions
      this1 w2 in
  omap callee (List.filter is_validateSettings (new_calls w w1)) = [1; 2; 3] /\
  omap callee (List.filter is_validateSettings (new_calls w2 w3)) = [3; 1].
Proof. by vm_compute. Qed.

Lemma caller_stack_never_mutated_witness :
  let this := Demo.instance "50x50" in
  let w := Demo.world Demo.mixed_stack in
  let script := [ActRender; ActSanitizedStack; ActGetRenderer; ActRender] in
  arrays w !! 0 = Some Demo.mixed_stack /\
  arrays (snd (constructor (H := Demo.canvas_host) Demo.image 0 "50x50"
                 None w)) !! 0
    = Some Demo.mixed_stack /\
  (let '(_, this', w') :=
     render (H := Demo.canvas_host) Demo.ops Demo.calculateFinalDimensions
       this w in
   arrays w' !! 0 = Some Demo.mixed_stack /\ _stack this' = _stack this) /\
  getRenderer this = _renderer this /\
  (let '(res, w') := sanitizedStack this w in
   arrays w' !! 0 = Some Demo.mixed_stack /\
   forall r, res = Returned r -> arrays w !! r = None /\ r <> 0) /\
  (forallb is_method_call script = true ->
   arrays (snd (lifetime (H := Demo.canvas_host) Demo.ops
                  Demo.calculateFinalDimensions script (this, w))) !! 0
     = Some Demo.mixed_stack).
Proof.
  intros this w script.
  assert (h : arrays w !! 0 = Some Demo.mixed_stack) by reflexivity.
  exact (conj h (caller_stack_never_mutated (H := Demo.canvas_host)
                   Demo.ops Demo.calculateFinalDimensions this w 0
                   Demo.mixed_stack Demo.image "50x50" None script h)).
Defined.

Lemma falsy_stack_still_finalizes_witness :
  let this := Demo.instance "50x50" in
  let items := [JNull; JUndefined; JFalse] in
  let w := Demo.world items in
  arrays w !! _stack this = Some items /\
  Forall (fun v => truthy v = false) items /\
  _renderer this = Some (CanvasRenderer, Vector2.mk 100 100) /\
  let '(res, this', w') :=
    render (H := Demo.canvas_host) Demo.ops Demo.calculateFinalDimensions
      this w in
  let '(r2, c) :=
    renderFinal (Renderer := Demo.canvas_host) (Vector2.mk 100 100) in
  let current := getSize (Renderer := Demo.canvas_host) r2 in
  let resolved := Demo.calculateFinalDimensions (_dimensions this) current in
  Forall (fun e => is_validateSettings e = false /\ is_render e = false)
    (new_calls w w') /\
  match adopt c with
  | Fulfilled =>
      if Vector2.equals resolved current then
        new_calls w w' = [CallRenderFinal c; CallGetSize current] /\
        res = Async Fulfilled
      else
        new_calls w w' =
          [CallRenderFinal c; CallGetSize current;
           CallResizeTo resolved
             (snd (resizeTo (Renderer := Demo.canvas_host) resolved r2))] /\
        res = Async (adopt (snd (resizeTo (Renderer := Demo.canvas_host)
                                   resolved r2)))
  | failure => new_calls w w' = [CallRenderFinal c] /\ res = Async failure
  end.
Proof.
  intros this items w.
  assert (h1 : arrays w !! _stack this = Some items) by reflexivity.
  assert (h2 : Forall (fun v => truthy v = false) items)
    by (repeat constructor).
  assert (h3 : _renderer this = Some (CanvasRenderer, Vector2.mk 100 100))
    by reflexivity.
  exact (conj h1 (conj h2 (conj h3
    (falsy_stack_still_finalizes (H := Demo.canvas_host) Demo.ops
       Demo.calculateFinalDimensions this w items CanvasRenderer
       (Vector2.mk 100 100) h1 h2 h3)))).
Defined.

(** C10 as stated fails: on a host whose [renderFinal()] is rejected, a
    [render()] on the empty stack requests [renderFinal()], never reads
    the size, and is rejected. *)
Lemma empty_stack_render_rejected :
  let this := Demo.instance "50x50" in
  let w := Demo.world [] in
  let run :=
    render (H := Demo.failing_host) Demo.ops Demo.calculateFinalDimensions
      this w in
  arrays w !! _stack this = Some [] /\
  fst (fst run) = Async (Rejected "finalize failed") /\
  fst (fst run) <> Async Fulfilled /\
  new_calls w (snd run)
    = [CallRenderFinal (Demo.rejected_at 1 "finalize failed")] /\
  List.filter is_getSize (new_calls w (snd run)) = [].
Proof. by vm_compute. Qed.

(** ** The further properties on the concrete host *)

Lemma render_calls_follow_phases_witness :
  let this := Demo.instance "50x50" in
  let w := Demo.world Demo.invalid_stack in
  arrays w !! _stack this = Some Demo.invalid_stack /\
  let '(res, this', w') :=
    render (H := Demo.canvas_host) Demo.ops Demo.calculateFinalDimensions
      this w in
  exists vs rs fs,
    new_calls w w' = vs ++ rs ++ fs /\
    Forall (fun e => is_validateSettings e = true) vs /\
    Forall (fun e => is_render e = true) rs /\
    finalize_calls fs /\
    omap callee vs `prefix_of`
      operations_of (List.filter truthy Demo.invalid_stack) /\
    omap callee rs `prefix_of`
      operations_of (List.filter truthy Demo.invalid_stack).
Proof.
  intros this w.
  assert (h : arrays w !! _stack this = Some Demo.invalid_stack)
    by reflexivity.
  exact (conj h (render_calls_follow_phases (H := Demo.canvas_host)
                   Demo.ops Demo.calculateFinalDimensions this w
                   Demo.invalid_stack h)).
Defined.

Lemma render_needs_all_validations_witness :
  let this := Demo.instance "50x50" in
  let w := Demo.world Demo.mixed_stack in
  arrays w !! _stack this = Some Demo.mixed_stack /\
  let '(res, this', w') :=
    render (H := Demo.canvas_host) Demo.ops Demo.calculateFinalDimensions
      this w in
  Exists (fun e => is_render e = true) (new_calls w w') ->
  List.filter is_validateSettings (new_calls w w')
    = validate_call Demo.ops <$>
        operations_of (List.filter truthy Demo.mixed_stack) /\
  Forall (fun e => completed e = true)
    (List.filter is_validateSettings (new_calls w w')).
Proof.
  intros this w.
  assert (h : arrays w !! _stack this = Some Demo.mixed_stack) by reflexivity.
  exact (conj h (render_needs_all_validations (H := Demo.canvas_host)
                   Demo.ops Demo.calculateFinalDimensions this w
                   Demo.mixed_stack h)).
Defined.

Lemma validation_throw_ends_render_witness :
  let this := Demo.instance "50x50" in
  let items := [JOperation 1; JNull; JOperation 4; JOperation 2] in
  let w := Demo.world items in
  arrays w !! _stack this = Some items /\
  List.filter truthy items = JOperation <$> ([1] ++ 4 :: [2]) /\
  Forall (fun o => exists p,
            Operation.validateSettings (Demo.faulty_ops o) = Returns p) [1] /\
  Operation.validateSettings (Demo.faulty_ops 4) = Throws "cannot validate" /\
  let '(res, this', w') :=
    render (H := Demo.canvas_host) Demo.faulty_ops
      Demo.calculateFinalDimensions this w in
  res = SyncThrow "cannot validate" /\ this' = this /\
  new_calls w w' = validate_call Demo.faulty_ops <$> ([1] ++ [4]).
Proof.
  intros this items w.
  assert (h1 : arrays w !! _stack this = Some items) by reflexivity.
  assert (h2 : List.filter truthy items = JOperation <$> ([1] ++ 4 :: [2]))
    by reflexivity.
  assert (h3 : Forall (fun o => exists p,
                 Operation.validateSettings (Demo.faulty_ops o) = Returns p)
                 [1]).
  { repeat constructor. by eexists. }
  assert (h4 : Operation.validateSettings (Demo.faulty_ops 4)
               = Throws "cannot validate") by reflexivity.
  exact (conj h1 (conj h2 (conj h3 (conj h4
    (validation_throw_ends_render (H := Demo.canvas_host) Demo.faulty_ops
       Demo.calculateFinalDimensions this w items [1] [2] 4
       "cannot validate" h1 h2 h3 h4))))).
Defined.

Lemma failed_render_rejects_before_finalize_witness :
  let this := Demo.instance "50x50" in
  let items := [JOperation 1; JOperation 6; JOperation 2] in
  let w := Demo.world items in
  arrays w !! _stack this = Some items /\
  _renderer this = Some (CanvasRenderer, Vector2.mk 100 100) /\
  let '(res, this', w') :=
    render (H := Demo.canvas_host) Demo.faulty_ops
      Demo.calculateFinalDimensions this w in
  forall op c e,
    CallRender op c ∈ new_calls w w' -> fails_with c e ->
    (exists op' c' e',
       res = Async (Rejected e') /\
       CallRender op' c' ∈ new_calls w w' /\ fails_with c' e') /\
    (forall e0, c = Throws e0 -> res = Async (Rejected e0)) /\
    Forall (fun ev => is_renderFinal ev = false /\ is_getSize ev = false /\
                      is_resizeTo ev = false) (new_calls w w').
Proof.
  intros this items w.
  assert (h1 : arrays w !! _stack this = Some items) by reflexivity.
  assert (h2 : _renderer this = Some (CanvasRenderer, Vector2.mk 100 100))
    by reflexivity.
  exact (conj h1 (conj h2
    (failed_render_rejects_before_finalize (H := Demo.canvas_host)
       Demo.faulty_ops Demo.calculateFinalDimensions this w items
       CanvasRenderer (Vector2.mk 100 100) h1 h2))).
Defined.

(** A rejected render step: the later operation is rendered all the
    same, [render()] is rejected, and nothing is finalized. *)
Example render_rejected_step :
  let w := Demo.world [JOperation 1; JOperation 6; JOperation 2] in
  let '(res, _, w') :=
    render (H := Demo.canvas_host) Demo.faulty_ops
      Demo.calculateFinalDimensions (Demo.instance "50x50") w in
  res = Async (Rejected "render failed") /\
  omap callee (List.filter is_render (new_calls w w')) = [1; 6; 2] /\
  List.filter uses_renderer (new_calls w w') = [].
Proof. by vm_compute. Qed.

(** A render step that throws: the later operation is not rendered and
    nothing is finalized. *)
Example render_throwing_step :
  let w := Demo.world [JOperation 1; JOperation 5; JOperation 2] in
  let '(res, this', w') :=
    render (H := Demo.canvas_host) Demo.faulty_ops
      Demo.calculateFinalDimensions (Demo.instance "50x50") w in
  res = Async (Rejected "cannot render") /\
  omap callee (List.filter is_render (new_calls w w')) = [1; 5] /\
  List.filter uses_renderer (new_calls w w') = [].
Proof. by vm_compute. Qed.

Lemma rejections_do_not_cancel_calls_witness :
  let this := Demo.instance "50x50" in
  let items := [JOperation 1; JOperation 6; JOperation 2] in
  let w := Demo.world items in
  arrays w !! _stack this = Some items /\
  _renderer this = Some (CanvasRenderer, Vector2.mk 100 100) /\
  let '(res, this', w') :=
    render (H := Demo.canvas_host) Demo.faulty_ops
      Demo.calculateFinalDimensions this w in
  (forall p, res = Async p ->
     List.filter is_validateSettings (new_calls w w')
     = validate_call Demo.faulty_ops <$>
         operations_of (List.filter truthy items)) /\
  (Exists (fun e => is_render e = true) (new_calls w w') ->
   (forall op e, CallRender op (Throws e) ∉ new_calls w w') ->
   omap callee (List.filter is_render (new_calls w w'))
   = operations_of (List.filter truthy items)).
Proof.
  intros this items w.
  assert (h1 : arrays w !! _stack this = Some items) by reflexivity.
  assert (h2 : _renderer this = Some (CanvasRenderer, Vector2.mk 100 100))
    by reflexivity.
  exact (conj h1 (conj h2
    (rejections_do_not_cancel_calls (H := Demo.canvas_host)
       Demo.faulty_ops Demo.calculateFinalDimensions this w items
       CanvasRenderer (Vector2.mk 100 100) h1 h2))).
Defined.

Lemma render_settles_as_finalize_and_resize_witness :
  let this := Demo.instance "50x50" in
  let w := Demo.world Demo.mixed_stack in
  let r := Vector2.mk 100 100 in
  arrays w !! _stack this = Some Demo.mixed_stack /\
  _renderer this = Some (CanvasRenderer, r) /\
  reaches_finalize Demo.ops (List.filter truthy Demo.mixed_stack) r = true /\
  let '(res, this', w') :=
    render (H := Demo.canvas_host) Demo.ops Demo.calculateFinalDimensions
      this w in
  exists c,
    match adopt c with
    | Fulfilled =>
        exists current,
          let resolved :=
            Demo.calculateFinalDimensions (_dimensions this) current in
          if Vector2.equals resolved current then
            res = Async Fulfilled /\
            List.filter uses_renderer (new_calls w w')
              = [CallRenderFinal c; CallGetSize current]
          else
            exists c',
              res = Async (adopt c') /\
              List.filter uses_renderer (new_calls w w')
                = [CallRenderFinal c; CallGetSize current;
                   CallResizeTo resolved c']
    | other =>
        res = Async other /\
        List.filter uses_renderer (new_calls w w') = [CallRenderFinal c]
    end.
Proof.
  intros this w r.
  assert (h1 : arrays w !! _stack this = Some Demo.mixed_stack) by reflexivity.
  assert (h2 : _renderer this = Some (CanvasRenderer, r)) by reflexivity.
  assert (h3 : reaches_finalize Demo.ops
                 (List.filter truthy Demo.mixed_stack) r = true)
    by reflexivity.
  exact (conj h1 (conj h2 (conj h3
    (render_settles_as_finalize_and_resize (H := Demo.canvas_host)
       Demo.ops Demo.calculateFinalDimensions this w Demo.mixed_stack
       CanvasRenderer r h1 h2 h3)))).
Defined.

Lemma resolved_render_ran_every_operation_witness :
  let this := Demo.instance "50x50" in
  let w := Demo.world Demo.mixed_stack in
  let run :=
    render (H := Demo.canvas_host) Demo.ops Demo.calculateFinalDimensions
      this w in
  arrays w !! _stack this = Some Demo.mixed_stack /\
  run = (Async Fulfilled, snd (fst run), snd run) /\
  let l := operations_of (List.filter truthy Demo.mixed_stack) in
  List.filter is_validateSettings (new_calls w (snd run))
    = validate_call Demo.ops <$> l /\
  omap callee (List.filter is_render (new_calls w (snd run))) = l /\
  Forall (fun e => completed e = true)
    (List.filter is_validateSettings (new_calls w (snd run))) /\
  Forall (fun e => completed e = true)
    (List.filter is_render (new_calls w (snd run))) /\
  length (List.filter is_renderFinal (new_calls w (snd run))) = 1 /\
  length (List.filter is_getSize (new_calls w (snd run))) = 1.
Proof.
  intros this w run.
  assert (h1 : arrays w !! _stack this = Some Demo.mixed_stack) by reflexivity.
  assert (h2 : run = (Async Fulfilled, snd (fst run), snd run)) by reflexivity.
  exact (conj h1 (conj h2
    (resolved_render_ran_every_operation (H := Demo.canvas_host)
       Demo.ops Demo.calculateFinalDimensions this (snd (fst run)) w
       (snd run) Demo.mixed_stack h1 h2))).
Defined.

Lemma falsy_entries_are_inert_witness :
  let this := Demo.instance "50x50" in
  let items2 := [JOperation 1; JOperation 2; JFalse; JOperation 3] in
  let w1 := Demo.world Demo.mixed_stack in
  let w2 := Demo.constructed_world items2 in
  arrays w1 !! _stack this = Some Demo.mixed_stack /\
  arrays w2 !! _stack this = Some items2 /\
  List.filter truthy Demo.mixed_stack = List.filter truthy items2 /\
  let '(res1, this1, w1') :=
    render (H := Demo.canvas_host) Demo.ops Demo.calculateFinalDimensions
      this w1 in
  let '(res2, this2, w2') :=
    render (H := Demo.canvas_host) Demo.ops Demo.calculateFinalDimensions
      this w2 in
  res1 = res2 /\ this1 = this2 /\ new_calls w1 w1' = new_calls w2 w2'.
Proof.
  intros this items2 w1 w2.
  assert (h1 : arrays w1 !! _stack this = Some Demo.mixed_stack)
    by reflexivity.
  assert (h2 : arrays w2 !! _stack this = Some items2) by reflexivity.
  assert (h3 : List.filter truthy Demo.mixed_stack = List.filter truthy items2)
    by reflexivity.
  exact (conj h1 (conj h2 (conj h3
    (falsy_entries_are_inert (H := Demo.canvas_host) Demo.ops
       Demo.calculateFinalDimensions this w1 w2 Demo.mixed_stack items2
       h1 h2 h3)))).
Defined.

Lemma sanitizedStack_returns_fresh_copy_witness :
  let this := Demo.instance "50x50" in
  let w := Demo.world Demo.mixed_stack in
  arrays w !! _stack this = Some Demo.mixed_stack /\
  exists r1 w1,
    sanitizedStack this w = (Returned r1, w1) /\
    r1 <> _stack this /\
    forall written,
      let w1' := caller_mutates r1 written w1 in
      arrays w1' !! _stack this = Some Demo.mixed_stack /\
      exists r2 w2,
        sanitizedStack this w1' = (Returned r2, w2) /\
        r2 <> r1 /\ r2 <> _stack this /\
        arrays w2 !! r2 = Some (List.filter truthy Demo.mixed_stack) /\
        arrays w2 !! r1 = Some written.
Proof.
  intros this w.
  assert (h : arrays w !! _stack this = Some Demo.mixed_stack) by reflexivity.
  exact (conj h (sanitizedStack_returns_fresh_copy this w Demo.mixed_stack h)).
Defined.

Lemma sanitizedStack_drops_only_falsy_witness :
  let this := Demo.instance "50x50" in
  let w := Demo.world Demo.mixed_stack in
  arrays w !! _stack this = Some Demo.mixed_stack /\
  exists r w' out,
    sanitizedStack this w = (Returned r, w') /\
    arrays w' !! r = Some out /\
    length out
    + length (List.filter (fun v => negb (truthy v)) Demo.mixed_stack)
      = length Demo.mixed_stack /\
    (out = Demo.mixed_stack <->
     Forall (fun v => truthy v = true) Demo.mixed_stack) /\
    (out = [] <-> Forall (fun v => truthy v = false) Demo.mixed_stack).
Proof.
  intros this w.
  assert (h : arrays w !! _stack this = Some Demo.mixed_stack) by reflexivity.
  exact (conj h (sanitizedStack_drops_only_falsy this w Demo.mixed_stack h)).
Defined.


Lemma construction_choices_are_permanent_witness :
  let w := Demo.world Demo.mixed_stack in
  let this := Demo.instance "50x50" in
  let w1 := Demo.constructed_world Demo.mixed_stack in
  let script := [ActRender; ActMutate 0 [JOperation 0]; ActRender;
                 ActSanitizedStack; ActGetRenderer] in
  constructor (H := Demo.canvas_host) Demo.image 0 "50x50" None w
    = (Returned this, w1) /\
  let '(this', w') :=
    lifetime (H := Demo.canvas_host) Demo.ops Demo.calculateFinalDimensions
      script (this, w1) in
  _image this' = Demo.image /\ _stack this' = 0 /\
  _dimensions this' = "50x50"%string /\
  _options_preferredRenderer this' = None /\
  _initialDimensions this'
    = Vector2.mk (width Demo.image) (height Demo.image) /\
  exists k r r',
    getRenderer this = Some (k, r) /\ getRenderer this' = Some (k, r') /\
    (_webglEnabled this' = true <-> k = WebGLRenderer).
Proof.
  intros w this w1 script.
  assert (h : constructor (H := Demo.canvas_host) Demo.image 0 "50x50" None w
              = (Returned this, w1)) by reflexivity.
  exact (conj h (construction_choices_are_permanent (H := Demo.canvas_host)
                   Demo.ops Demo.calculateFinalDimensions Demo.image 0
                   "50x50" None w w1 this script h)).
Defined.

Lemma constructor_seeds_one_renderer_witness :
  let w := Demo.world Demo.mixed_stack in
  let this := Demo.instance "50x50" in
  let w1 := Demo.constructed_world Demo.mixed_stack in
  constructor (H := Demo.canvas_host) Demo.image 0 "50x50" None w
    = (Returned this, w1) /\
  let size := Vector2.mk (width Demo.image) (height Demo.image) in
  exists k probes,
    getRenderer this
      = Some (k, drawImage (Renderer := Demo.canvas_host) Demo.image
                   (new_renderer (Renderer := Demo.canvas_host) k size)) /\
    new_calls w w1 = probes ++ [CallNew k size; CallDrawImage Demo.image] /\
    Forall (fun ev => exists k' b, ev = CallIsSupported k' b) probes /\
    arrays w1 = arrays w.
Proof.
  intros w this w1.
  assert (h : constructor (H := Demo.canvas_host) Demo.image 0 "50x50" None w
              = (Returned this, w1)) by reflexivity.
  exact (conj h (constructor_seeds_one_renderer (H := Demo.canvas_host)
                   Demo.image 0 "50x50" None w w1 this h)).
Defined.
